(** * Scheduling and materialization of flow runs

    A shallow embedding of [prefect/orion/models/deployments.py]:
    [_generate_scheduled_flow_runs], [_insert_scheduled_flow_runs] and
    [schedule_runs], over an explicit model of the session (the two tables
    [flow_run] and [flow_run_state], the deployment store, the dialect names)
    and of the sources of identifiers and of wall-clock readings.

    Tables are finite maps from the primary key [id] to the remaining columns.
    Statements executed through the session are functions in a state-and-error
    monad; a raised Python exception is a [Raise] result carrying the session
    as it was when the exception left the function. *)

From Stdlib Require Import ZArith Ascii.
From stdpp Require Import gmap strings pretty list sorting fin_maps.

Open Scope Z_scope.

(** ** Data model *)

(** A UUID is a 128-bit number; a datetime is an instant on the UTC time
    line, counted in microseconds. *)
Abbreviation UUID := N.
Abbreviation datetime := Z.

(** Modelled from the spec: the state type enumeration of
    [prefect.orion.schemas.states] (absent); this module only ever builds
    [SCHEDULED]. *)
Inductive StateType : Type :=
  | SCHEDULED | PENDING | RUNNING | COMPLETED | FAILED | CANCELLED.

#[global] Instance StateType_eq_dec : EqDecision StateType.
Proof. solve_decision. Defined.

Module schemas.

(** Modelled from the spec: [schemas.states.State] (its declaration is
    absent), with the fields this module sets. The state has an identity of
    its own, [id], assigned when the object is built; the materializer reads
    it back as [r["id"]]. *)
Module State.
Record t : Type := mk {
  id : UUID;
  type : StateType;
  message : string;
  scheduled_time : option datetime   (* state_details["scheduled_time"] *)
}.
End State.

Module FlowRunDetails.
Record t : Type := mk {
  schedule_id : option UUID;
  auto_scheduled : bool
}.
End FlowRunDetails.

(** Modelled from the spec: [schemas.core.FlowRun] (its declaration is
    absent), the candidate run specification together with its initial state.
    The identity [id] is assigned at generation time, when the object is
    built, not by the storage layer. *)
Module FlowRun.
Record t : Type := mk {
  id : UUID;
  flow_id : UUID;
  deployment_id : UUID;
  parameters : gmap string string;
  idempotency_key : string;
  tags : list string;
  flow_run_details : FlowRunDetails.t;
  state : State.t
}.
End FlowRun.

End schemas.

Module orm.

(** Modelled from the spec: a schedule (its declaration is absent) has an
    identity, a clock and fixed run parameters. The clock is consumed through
    [get_dates(n, start, end)] only, a deterministic function of its three
    arguments. *)
Module Schedule.
Record t : Type := mk {
  id : UUID;
  clock_get_dates : Z → datetime → datetime → list datetime;
  parameters : gmap string string
}.
End Schedule.

(** Modelled from the spec: a deployment (its declaration is absent) refers
    to a flow and has zero or more schedules. *)
Module Deployment.
Record t : Type := mk {
  flow_id : UUID;
  schedules : list Schedule.t
}.
End Deployment.

(** Modelled from the spec: a row of table [flow_run] (the table
    declaration is absent), without its primary key [id]. [state_id] is the
    nullable reference to the current state; the pair [(flow_id,
    idempotency_key)] is the target of the conflict clause of the bulk
    insert. *)
Module FlowRun.
Record t : Type := mk {
  flow_id : UUID;
  deployment_id : UUID;
  parameters : gmap string string;
  idempotency_key : string;
  tags : list string;
  flow_run_details : schemas.FlowRunDetails.t;
  state_id : option UUID
}.

Definition set_state_id (s : option UUID) (r : t) : t :=
  mk (flow_id r) (deployment_id r) (parameters r) (idempotency_key r)
     (tags r) (flow_run_details r) s.
End FlowRun.

(** Modelled from the spec: a row of table [flow_run_state] (the table
    declaration is absent), without its primary key [id]; [flow_run_id] is
    the run that owns the state. *)
Module FlowRunState.
Record t : Type := mk {
  flow_run_id : UUID;
  type : StateType;
  message : string;
  scheduled_time : option datetime
}.
End FlowRunState.

End orm.

(** ** The session and its environment *)

Record World : Type := mkWorld {
  bind_dialect_name : string;          (* session.bind.dialect.name *)
  settings_dialect : string;           (* what get_dialect() returns *)
  deployment : gmap UUID orm.Deployment.t;
  flow_run : gmap UUID orm.FlowRun.t;
  flow_run_state : gmap UUID orm.FlowRunState.t;
  uuid_source : nat → UUID;            (* the k-th value uuid4() returns *)
  uuid_drawn : nat;                    (* how many have been drawn *)
  now_source : nat → datetime;         (* the k-th reading of the wall clock *)
  now_read : nat                       (* how many readings were taken *)
}.

Definition with_flow_run (t : gmap UUID orm.FlowRun.t) (w : World) : World :=
  mkWorld (bind_dialect_name w) (settings_dialect w) (deployment w) t
          (flow_run_state w) (uuid_source w) (uuid_drawn w)
          (now_source w) (now_read w).

Definition with_flow_run_state (t : gmap UUID orm.FlowRunState.t) (w : World)
  : World :=
  mkWorld (bind_dialect_name w) (settings_dialect w) (deployment w)
          (flow_run w) t (uuid_source w) (uuid_drawn w)
          (now_source w) (now_read w).

(** Python exceptions. [ObjectNotFound] stands for the NotFound condition of
    the error taxonomy; no statement of this module raises it. *)
Inductive exn : Type :=
  | ValueError (msg : string)
  | AttributeError (msg : string)
  | IntegrityError
  | ObjectNotFound.

Inductive Res (A : Type) : Type :=
  | Ok (a : A) (w : World)
  | Raise (e : exn) (w : World).
Arguments Ok {A} a w.
Arguments Raise {A} e w.

Definition M (A : Type) : Type := World → Res A.

Definition ret {A} (a : A) : M A := fun w => Ok a w.

Definition bind {A B} (m : M A) (k : A → M B) : M B :=
  fun w => match m w with
           | Ok a w' => k a w'
           | Raise e w' => Raise e w'
           end.

Definition raise {A} (e : exn) : M A := fun w => Raise e w.

Declare Scope session_scope.
Delimit Scope session_scope with session.
Notation "x <- m ;; k" := (bind m (fun x => k))
  (at level 100, m at next level, right associativity) : session_scope.
Notation "m ;;; k" := (bind m (fun _ => k))
  (at level 100, right associativity) : session_scope.
Open Scope session_scope.

Definition world_of {A} (r : Res A) : World :=
  match r with Ok _ w => w | Raise _ w => w end.

(** [uuid4()] *)
Definition uuid4 : M UUID :=
  fun w => Ok (uuid_source w (uuid_drawn w))
              (mkWorld (bind_dialect_name w) (settings_dialect w)
                       (deployment w) (flow_run w) (flow_run_state w)
                       (uuid_source w) (S (uuid_drawn w))
                       (now_source w) (now_read w)).

(** [pendulum.now("UTC")] *)
Definition pendulum_now : M datetime :=
  fun w => Ok (now_source w (now_read w))
              (mkWorld (bind_dialect_name w) (settings_dialect w)
                       (deployment w) (flow_run w) (flow_run_state w)
                       (uuid_source w) (uuid_drawn w)
                       (now_source w) (S (now_read w))).

(** [session.get(orm.Deployment, deployment_id)]: the row, or [None]. *)
Definition session_get_deployment (deployment_id : UUID)
  : M (option orm.Deployment.t) :=
  fun w => Ok (deployment w !! deployment_id) w.

(** ** Statements of the materializer *)

Inductive insert_construct : Type := insert_sqlite | insert_postgres.

(** [r.dict(exclude={"created", "updated"})] as a row of [flow_run]: the
    columns of the candidate; [state_id] is not set. *)
Definition flow_run_values (r : schemas.FlowRun.t) : orm.FlowRun.t :=
  orm.FlowRun.mk (schemas.FlowRun.flow_id r) (schemas.FlowRun.deployment_id r)
    (schemas.FlowRun.parameters r) (schemas.FlowRun.idempotency_key r)
    (schemas.FlowRun.tags r) (schemas.FlowRun.flow_run_details r) None.

(** Does a row with this [(flow_id, idempotency_key)] exist? *)
Definition key_present (t : gmap UUID orm.FlowRun.t) (f : UUID) (k : string)
  : Prop :=
  map_Exists (fun _ row => orm.FlowRun.flow_id row = f
                           ∧ orm.FlowRun.idempotency_key row = k) t.

#[global] Instance key_present_dec t f k : Decision (key_present t f k).
Proof. unfold key_present. apply _. Defined.

(** One row of [INSERT INTO flow_run ... ON CONFLICT (flow_id,
    idempotency_key) DO NOTHING]: a row whose pair is present is skipped;
    otherwise the row is stored, and a primary key that is taken is an
    integrity error. *)
Definition insert_flow_run_row (r : schemas.FlowRun.t) : M unit :=
  fun w =>
    if decide (key_present (flow_run w) (schemas.FlowRun.flow_id r)
                           (schemas.FlowRun.idempotency_key r))
    then Ok tt w
    else match flow_run w !! schemas.FlowRun.id r with
         | Some _ => Raise IntegrityError w
         | None => Ok tt (with_flow_run
                            (<[schemas.FlowRun.id r := flow_run_values r]>
                               (flow_run w)) w)
         end.

(** [session.execute(insert(orm.FlowRun.__table__).on_conflict_do_nothing(
    index_elements=["flow_id", "idempotency_key"]), [...])]: the rows are
    processed in order, and with no row nothing is stored. Both insert
    constructs build the same statement. *)
Fixpoint execute_insert_flow_runs (insert : insert_construct)
    (rows : list schemas.FlowRun.t) : M unit :=
  match rows with
  | [] => ret tt
  | r :: rows => insert_flow_run_row r ;;; execute_insert_flow_runs insert rows
  end.

(** Has run [x] a row in [flow_run_state]? *)
Definition has_state (t : gmap UUID orm.FlowRunState.t) (x : UUID) : Prop :=
  map_Exists (fun _ s => orm.FlowRunState.flow_run_id s = x) t.

#[global] Instance has_state_dec t x : Decision (has_state t x).
Proof. unfold has_state. apply _. Defined.

(** The [inserted_rows] query: [flow_run] left outer join [flow_run_state]
    on [flow_run.id = flow_run_state.flow_run_id], keeping the runs whose id
    is in [ids] and whose state side is NULL. *)
Definition inserted_rows (ids : list UUID) (w : World) : list UUID :=
  (map_to_list
     (filter (fun kv => fst kv ∈ ids ∧ ¬ has_state (flow_run_state w) (fst kv))
             (flow_run w))).*1.

(** [(await session.execute(inserted_rows)).scalars().all()] *)
Definition select_inserted_rows (ids : list UUID) : M (list UUID) :=
  fun w => Ok (inserted_rows ids w) w.

(** An entry of [insert_flow_run_states]:
    [{"flow_run_id": r.id, **r.state.dict(...)}]; the key ["id"] is the id of
    the state. *)
Definition state_values (r : schemas.FlowRun.t) : UUID * orm.FlowRunState.t :=
  (schemas.State.id (schemas.FlowRun.state r),
   orm.FlowRunState.mk (schemas.FlowRun.id r)
     (schemas.State.type (schemas.FlowRun.state r))
     (schemas.State.message (schemas.FlowRun.state r))
     (schemas.State.scheduled_time (schemas.FlowRun.state r))).

(** One row of the plain insert into [flow_run_state]. *)
Definition insert_flow_run_state_row (s : UUID * orm.FlowRunState.t) : M unit :=
  fun w =>
    match flow_run_state w !! s.1 with
    | Some _ => Raise IntegrityError w
    | None => Ok tt (with_flow_run_state (<[s.1 := s.2]> (flow_run_state w)) w)
    end.

(** [session.execute(orm.FlowRunState.__table__.insert(), ...)] *)
Fixpoint execute_insert_flow_run_states
    (rows : list (UUID * orm.FlowRunState.t)) : M unit :=
  match rows with
  | [] => ret tt
  | s :: rows =>
      insert_flow_run_state_row s ;;; execute_insert_flow_run_states rows
  end.

(** The states among [ids] that belong to run [x]: the rows of
    [flow_run_state] with [flow_run_id = x] and [id IN ids]. *)
Definition new_states_of (t : gmap UUID orm.FlowRunState.t)
    (ids : list UUID) (x : UUID) : list UUID :=
  filter (fun sid => orm.FlowRunState.flow_run_id <$> t !! sid = Some x) ids.

(** The postgresql statement: [UPDATE flow_run SET state_id =
    flow_run_state.id FROM flow_run_state WHERE flow_run_state.flow_run_id =
    flow_run.id AND flow_run_state.id IN ids]. Only the runs that join with a
    state are updated. *)
Definition update_from (ids : list UUID) : M unit :=
  fun w =>
    Ok tt (with_flow_run
             (map_imap (fun x row =>
                          match head (new_states_of (flow_run_state w) ids x) with
                          | Some sid => Some (orm.FlowRun.set_state_id (Some sid) row)
                          | None => Some row
                          end)
                       (flow_run w)) w).

(** The sqlite statement: [UPDATE flow_run SET state_id = (SELECT id FROM
    flow_run_state WHERE flow_run_id = flow_run.id AND id IN ids LIMIT 1)].
    The statement has no WHERE clause: every row of [flow_run] is assigned
    the value of the scalar subquery, which is NULL when it selects no
    row. *)
Definition update_correlated_subquery (ids : list UUID) : M unit :=
  fun w =>
    Ok tt (with_flow_run
             (map_imap (fun x row =>
                          Some (orm.FlowRun.set_state_id
                                  (head (new_states_of (flow_run_state w) ids x))
                                  row))
                       (flow_run w)) w).

(** Modelled from the spec: [get_dialect()] of
    [prefect.orion.utilities.database] (absent) names the configured storage
    backend; it is read from the settings, not from the session. *)
Definition get_dialect : M string := fun w => Ok (settings_dialect w) w.

Definition session_bind_dialect_name : M string :=
  fun w => Ok (bind_dialect_name w) w.

(** ** The materializer *)

Definition _insert_scheduled_flow_runs (runs : list schemas.FlowRun.t)
  : M (list schemas.FlowRun.t) :=
  name <- session_bind_dialect_name ;;
  insert <- (if decide (name = "sqlite") then ret insert_sqlite
            else if decide (name = "postgresql") then ret insert_postgres
            else raise (ValueError ("Unrecognized dialect: " +:+ name))) ;;
  execute_insert_flow_runs insert runs ;;;
  inserted_flow_run_ids <- select_inserted_rows (schemas.FlowRun.id <$> runs) ;;
  let insert_flow_run_states :=
    state_values <$>
      filter (fun r => schemas.FlowRun.id r ∈ inserted_flow_run_ids) runs in
  (match insert_flow_run_states with
   | [] => ret tt
   | _ :: _ =>
       execute_insert_flow_run_states insert_flow_run_states ;;;
       dialect <- get_dialect ;;
       if decide (dialect = "postgresql")
       then update_from (insert_flow_run_states.*1)
       else update_correlated_subquery (insert_flow_run_states.*1)
   end) ;;;
  ret (filter (fun r => schemas.FlowRun.id r ∈ inserted_flow_run_ids) runs).

(** ** The occurrence generator *)

(** The library functions the generator calls on its values:
    [DateTime.add(years=...)] of pendulum and the [str()] of a UUID and of a
    datetime, as used by the f-string of the idempotency key. *)
Class Library : Type := {
  add_years : Z → datetime → datetime;
  str_uuid : UUID → string;
  str_datetime : datetime → string
}.

Section Generator.
Context `{Library}.

(** Lines 127-132: the three defaults, in the order of the source. *)
Definition resolve_window (start_time end_time : option datetime)
    (max_runs : option Z) : M (Z * datetime * datetime) :=
  max_runs <- (match max_runs with
               | None => ret 100
               | Some n => ret n
               end) ;;
  start_time <- (match start_time with
                 | None => pendulum_now
                 | Some t => ret t
                 end) ;;
  end_time <- (match end_time with
               | None => (t <- pendulum_now ;; ret (add_years 1 t))
               | Some t => ret t
               end) ;;
  ret (max_runs, start_time, end_time).

(** Lines 147-162: one candidate. The state object is built first, as an
    argument of the run; each object draws its own [id]. *)
Definition new_flow_run (deployment : orm.Deployment.t)
    (deployment_id : UUID) (schedule : orm.Schedule.t) (date : datetime)
  : M schemas.FlowRun.t :=
  state_id <- uuid4 ;;
  let state :=
    schemas.State.mk state_id SCHEDULED "Flow run scheduled" (Some date) in
  id <- uuid4 ;;
  ret (schemas.FlowRun.mk id
         (orm.Deployment.flow_id deployment)
         deployment_id
         (orm.Schedule.parameters schedule)
         ("scheduled " +:+ str_uuid (orm.Schedule.id schedule)
                        +:+ " " +:+ str_datetime date)
         ["auto-scheduled"]
         (schemas.FlowRunDetails.mk (Some (orm.Schedule.id schedule)) true)
         state).

(** [for date in dates: runs.append(...)] *)
Fixpoint for_dates (deployment : orm.Deployment.t) (deployment_id : UUID)
    (schedule : orm.Schedule.t) (dates : list datetime)
    (runs : list schemas.FlowRun.t) : M (list schemas.FlowRun.t) :=
  match dates with
  | [] => ret runs
  | date :: dates =>
      r <- new_flow_run deployment deployment_id schedule date ;;
      for_dates deployment deployment_id schedule dates (runs ++ [r])
  end.

(** [for schedule in deployment.schedules: ...] *)
Fixpoint for_schedules (deployment : orm.Deployment.t) (deployment_id : UUID)
    (max_runs : Z) (start_time end_time : datetime)
    (schedules : list orm.Schedule.t) (runs : list schemas.FlowRun.t)
  : M (list schemas.FlowRun.t) :=
  match schedules with
  | [] => ret runs
  | schedule :: schedules =>
      let dates :=
        orm.Schedule.clock_get_dates schedule max_runs start_time end_time in
      runs <- for_dates deployment deployment_id schedule dates runs ;;
      for_schedules deployment deployment_id max_runs start_time end_time
                    schedules runs
  end.

Definition _generate_scheduled_flow_runs (deployment_id : UUID)
    (start_time end_time : option datetime) (max_runs : option Z)
  : M (list schemas.FlowRun.t) :=
  window <- resolve_window start_time end_time max_runs ;;
  let '(max_runs, start_time, end_time) := window in
  deployment <- session_get_deployment deployment_id ;;
  match deployment with
  | None =>
      (* [deployment.schedules] on [None] *)
      raise (AttributeError "'NoneType' object has no attribute 'schedules'")
  | Some deployment =>
      for_schedules deployment deployment_id max_runs start_time end_time
                    (orm.Deployment.schedules deployment) []
  end.

Definition schedule_runs (deployment_id : UUID)
    (start_time end_time : option datetime) (max_runs : option Z)
  : M (list schemas.FlowRun.t) :=
  runs <- _generate_scheduled_flow_runs deployment_id start_time end_time
                                        max_runs ;;
  _insert_scheduled_flow_runs runs.

End Generator.

(** ** Properties of the session state *)

(** No two rows of [flow_run] carry the same [(flow_id, idempotency_key)]. *)
Definition unique_keys (t : gmap UUID orm.FlowRun.t) : Prop :=
  ∀ x y rx ry,
    t !! x = Some rx → t !! y = Some ry →
    orm.FlowRun.flow_id rx = orm.FlowRun.flow_id ry →
    orm.FlowRun.idempotency_key rx = orm.FlowRun.idempotency_key ry →
    x = y.

(** Every row of [flow_run_state] belongs to a row of [flow_run]. *)
Definition states_owned (w : World) : Prop :=
  ∀ sid s, flow_run_state w !! sid = Some s →
           is_Some (flow_run w !! orm.FlowRunState.flow_run_id s).

(** [uuid4()] never returns the same value twice, and none of the values it
    has yet to return is the id of a stored run. *)
Definition uuid4_unique (w : World) : Prop :=
  (∀ i j, uuid_source w i = uuid_source w j → i = j)
  ∧ ∀ k, (uuid_drawn w ≤ k)%nat → flow_run w !! uuid_source w k = None.

(** What a clock owes its caller: at most [n] dates, all of them inside the
    window. *)
Definition clock_contract (s : orm.Schedule.t) : Prop :=
  ∀ n start_time end_time,
    (Z.of_nat (length (orm.Schedule.clock_get_dates s n start_time end_time))
      ≤ Z.max 0 n)%Z
    ∧ Forall (fun d => (start_time ≤ d ≤ end_time)%Z)
             (orm.Schedule.clock_get_dates s n start_time end_time).


Definition with_uuid_drawn (n : nat) (w : World) : World :=
  mkWorld (bind_dialect_name w) (settings_dialect w) (deployment w)
          (flow_run w) (flow_run_state w) (uuid_source w) n
          (now_source w) (now_read w).

Definition with_now_read (n : nat) (w : World) : World :=
  mkWorld (bind_dialect_name w) (settings_dialect w) (deployment w)
          (flow_run w) (flow_run_state w) (uuid_source w) (uuid_drawn w)
          (now_source w) n.

(** The schedule and the date a candidate was generated from. *)
Definition provenance (r : schemas.FlowRun.t) : option UUID * option datetime :=
  (schemas.FlowRunDetails.schedule_id (schemas.FlowRun.flow_run_details r),
   schemas.State.scheduled_time (schemas.FlowRun.state r)).

(** The occurrences of a deployment in generation order: schedule after
    schedule, and the dates of one schedule as its clock returns them. *)
Definition occurrences (schedules : list orm.Schedule.t) (max_runs : Z)
    (start_time end_time : datetime) : list (orm.Schedule.t * datetime) :=
  s ← schedules;
  (fun d => (s, d)) <$> orm.Schedule.clock_get_dates s max_runs start_time end_time.

(** What the bulk insert does to the session, whether it returns or raises:
    only table [flow_run] changes, it only grows, every row it gains comes
    from a submitted candidate and has no state yet, and the uniqueness of
    the keys is kept. *)
Record bulk_insert_post (rows : list schemas.FlowRun.t) (w w' : World) : Prop := {
  bip_world : w' = with_flow_run (flow_run w') w;
  bip_grows : flow_run w ⊆ flow_run w';
  bip_unique : unique_keys (flow_run w) → unique_keys (flow_run w');
  bip_new : ∀ x row,
      flow_run w' !! x = Some row → flow_run w !! x = None →
      ∃ r, r ∈ rows ∧ x = schemas.FlowRun.id r ∧ row = flow_run_values r
}.

(** What the insert of the states does to the session, whether it returns
    or raises: only table [flow_run_state] changes, it only grows, and every
    row it gains was submitted. *)
Record state_insert_post (rows : list (UUID * orm.FlowRunState.t))
    (w w' : World) : Prop := {
  sip_world : w' = with_flow_run_state (flow_run_state w') w;
  sip_grows : flow_run_state w ⊆ flow_run_state w';
  sip_new : ∀ sid s,
      flow_run_state w' !! sid = Some s → flow_run_state w !! sid = None →
      (sid, s) ∈ rows
}.

(** Rewriting [state_id] row by row changes neither the set of rows nor
    their keys. *)
Definition same_keys (t t' : gmap UUID orm.FlowRun.t) : Prop :=
  ∀ x, match t !! x, t' !! x with
       | Some row, Some row' =>
           orm.FlowRun.flow_id row' = orm.FlowRun.flow_id row
           ∧ orm.FlowRun.idempotency_key row' = orm.FlowRun.idempotency_key row
       | None, None => True
       | _, _ => False
       end.

(** The candidates the materializer treats as new, given the session as the
    bulk insert left it. *)
Definition new_runs (runs : list schemas.FlowRun.t) (w1 : World)
  : list schemas.FlowRun.t :=
  filter (fun r => schemas.FlowRun.id r
                   ∈ inserted_rows (schemas.FlowRun.id <$> runs) w1) runs.

(** The linking statement the materializer picks. *)
Definition link_states (ids : list UUID) : M unit :=
  fun w => if decide (settings_dialect w = "postgresql")
           then update_from ids w
           else update_correlated_subquery ids w.

Section Candidates.
Context `{Library}.

(** The candidate built for one occurrence when [k] identifiers have been
    drawn: the state takes the next identifier, the run the one after. *)
Definition candidate (source : nat → UUID) (deployment : orm.Deployment.t)
    (deployment_id : UUID) (k : nat) (sd : orm.Schedule.t * datetime)
  : schemas.FlowRun.t :=
  schemas.FlowRun.mk (source (S k))
    (orm.Deployment.flow_id deployment) deployment_id
    (orm.Schedule.parameters sd.1)
    ("scheduled " +:+ str_uuid (orm.Schedule.id sd.1)
                   +:+ " " +:+ str_datetime sd.2)
    ["auto-scheduled"]
    (schemas.FlowRunDetails.mk (Some (orm.Schedule.id sd.1)) true)
    (schemas.State.mk (source k) SCHEDULED "Flow run scheduled" (Some sd.2)).

Fixpoint candidates (source : nat → UUID) (deployment : orm.Deployment.t)
    (deployment_id : UUID) (k : nat) (l : list (orm.Schedule.t * datetime))
  : list schemas.FlowRun.t :=
  match l with
  | [] => []
  | sd :: l =>
      candidate source deployment deployment_id k sd
      :: candidates source deployment deployment_id (S (S k)) l
  end.

(** The candidates of a deployment, one chunk per schedule. *)
Fixpoint chunks (source : nat → UUID) (dep : orm.Deployment.t)
    (dep_id : UUID) (k : nat) (schedules : list orm.Schedule.t)
    (n : Z) (st et : datetime) : list (list schemas.FlowRun.t) :=
  match schedules with
  | [] => []
  | s :: schedules =>
      let l := (fun d => (s, d)) <$> orm.Schedule.clock_get_dates s n st et in
      candidates source dep dep_id k l
      :: chunks source dep dep_id (k + 2 * length l) schedules n st et
  end.

End Candidates.

(** ** Sample sessions *)

(** A sample instance of the library functions: a year of 365 days, and
    decimal numerals for [str()]. *)
Definition sample_library : Library :=
  {| add_years := fun n t => (t + n * 31536000000000)%Z;
     str_uuid := pretty;
     str_datetime := pretty |}.

(** A clock that fires at every instant of the window. *)
Definition every_instant (n : Z) (start_time end_time : datetime)
  : list datetime :=
  take (Z.to_nat n) (seqZ start_time (end_time - start_time + 1)).

Definition sample_deployment : orm.Deployment.t :=
  orm.Deployment.mk 7%N
    [orm.Schedule.mk 1%N every_instant ∅; orm.Schedule.mk 2%N every_instant ∅].

(** An empty store holding one deployment, under id 5. *)
Definition sample_world (dialect : string) : World :=
  mkWorld dialect dialect {[ 5%N := sample_deployment ]} ∅ ∅
          (fun k => N.of_nat (100 + k)) 0
          (fun k => (1000 + Z.of_nat k)%Z) 0.

Definition result_value {A} (r : Res A) : option A :=
  match r with Ok a _ => Some a | Raise _ _ => None end.

Definition sample_call : Res (list schemas.FlowRun.t) :=
  @schedule_runs sample_library 5%N (Some 10%Z) (Some 20%Z) (Some 2%Z)
                 (sample_world "sqlite").

Definition sample_runs : list schemas.FlowRun.t :=
  default [] (result_value sample_call).

Definition sample_candidates : Res (list schemas.FlowRun.t) :=
  @_generate_scheduled_flow_runs sample_library 5%N (Some 10%Z) (Some 20%Z)
                                 (Some 2%Z) (sample_world "sqlite").

(** A store with one run, linked to its state. *)
Definition stored_run : orm.FlowRun.t :=
  orm.FlowRun.mk 7%N 5%N ∅ "scheduled 1 10" ["auto-scheduled"]
                 (schemas.FlowRunDetails.mk (Some 1%N) true) (Some 2%N).

Definition stored_state : orm.FlowRunState.t :=
  orm.FlowRunState.mk 1%N SCHEDULED "Flow run scheduled" (Some 10%Z).

Definition stored_world (dialect : string) : World :=
  mkWorld dialect dialect ∅ {[ 1%N := stored_run ]} {[ 2%N := stored_state ]}
          (fun k => N.of_nat (100 + k)) 0
          (fun k => (1000 + Z.of_nat k)%Z) 0.

(** A candidate for the next occurrence of the same schedule. *)
Definition next_candidate : schemas.FlowRun.t :=
  schemas.FlowRun.mk 3%N 7%N 5%N ∅ "scheduled 1 11" ["auto-scheduled"]
    (schemas.FlowRunDetails.mk (Some 1%N) true)
    (schemas.State.mk 4%N SCHEDULED "Flow run scheduled" (Some 11%Z)).

(** ** What a materializer call keeps *)

(** Every row of [t] is a row of [t'] with the same columns, [state_id]
    apart. *)
Definition keeps_runs (t t' : gmap UUID orm.FlowRun.t) : Prop :=
  ∀ x row, t !! x = Some row →
           ∃ row', t' !! x = Some row'
                   ∧ orm.FlowRun.set_state_id None row'
                     = orm.FlowRun.set_state_id None row.

(** A candidate for the occurrence that [stored_run] was created for, under
    identifiers of its own. *)
Definition repeated_candidate : schemas.FlowRun.t :=
  schemas.FlowRun.mk 9%N 7%N 5%N ∅ "scheduled 1 10" ["auto-scheduled"]
    (schemas.FlowRunDetails.mk (Some 1%N) true)
    (schemas.State.mk 8%N SCHEDULED "Flow run scheduled" (Some 10%Z)).

(** The pair the conflict clause of the bulk insert compares. *)
Definition conflict_key (r : schemas.FlowRun.t) : UUID * string :=
  (schemas.FlowRun.flow_id r, schemas.FlowRun.idempotency_key r).

(** ** Idempotency keys *)

(** Does character [c] occur in [s]? *)
Fixpoint has_char (c : Ascii.ascii) (s : string) : bool :=
  match s with
  | EmptyString => false
  | String a s => if decide (a = c) then true else has_char c s
  end.

Section Keys.
Context `{Library}.

(** The f-string of line 151. *)
Definition scheduled_key (schedule_id : UUID) (date : datetime) : string :=
  "scheduled " +:+ str_uuid schedule_id +:+ " " +:+ str_datetime date.

End Keys.


(** ** Deployments: create, read, list, delete *)

(** Modelled from the spec and the docstrings: a deployment as the four
    functions of lines 16-93 see it (the declarations of
    [schemas.core.Deployment] and [orm.Deployment] are absent): its identity,
    assigned when the schema object is built, its name, which no two stored
    deployments share (docstring of [create_deployment]), and the columns the
    generator reads. *)
Module DeploymentModel.
Record t : Type := mk {
  id : UUID;
  name : string;
  row : orm.Deployment.t
}.
End DeploymentModel.

(** Table [deployment]: from the primary key to the name and the other
    columns. *)
Abbreviation deployment_table := (gmap UUID (string * orm.Deployment.t)).

(** What a function of the session gives back: its value, or the exception
    it raises, and the table it leaves. *)
Inductive Outcome (A : Type) : Type :=
  | Returned (a : A) (t : deployment_table)
  | Failed (e : exn) (t : deployment_table).
Arguments Returned {A} a t.
Arguments Failed {A} e t.

(** Is there a stored deployment with this name? *)
Definition name_taken (t : deployment_table) (n : string) : Prop :=
  map_Exists (fun _ v => v.1 = n) t.

#[global] Instance name_taken_dec t n : Decision (name_taken t n).
Proof. unfold name_taken. apply _. Defined.

(** Lines 32-35: the model is built from the schema object, added and
    flushed. The INSERT of the flush fails with an integrity error when the
    primary key or the name is taken, and then stores nothing. *)
Definition create_deployment (deployment : DeploymentModel.t)
    (t : deployment_table) : Outcome DeploymentModel.t :=
  if decide (is_Some (t !! DeploymentModel.id deployment)
             ∨ name_taken t (DeploymentModel.name deployment))
  then Failed IntegrityError t
  else Returned deployment
         (<[DeploymentModel.id deployment :=
              (DeploymentModel.name deployment, DeploymentModel.row deployment)]>
            t).

(** Line 50: [session.get(orm.Deployment, deployment_id)], the model or
    [None]. *)
Definition read_deployment (deployment_id : UUID) (t : deployment_table)
  : option DeploymentModel.t :=
  (fun v => DeploymentModel.mk deployment_id v.1 v.2) <$> t !! deployment_id.

Definition model_of (kv : UUID * (string * orm.Deployment.t))
  : DeploymentModel.t :=
  DeploymentModel.mk kv.1 kv.2.1 kv.2.2.

(** [ORDER BY deployment.id] *)
Definition id_le (a b : DeploymentModel.t) : Prop :=
  (DeploymentModel.id a ≤ DeploymentModel.id b)%N.

#[global] Instance id_le_dec a b : Decision (id_le a b).
Proof. unfold id_le. apply _. Defined.

(** [.unique()]: a model that was seen before is left out; models are
    told apart by their identity. *)
Fixpoint unique_from (seen : list UUID) (l : list DeploymentModel.t)
  : list DeploymentModel.t :=
  match l with
  | [] => []
  | d :: l =>
      if decide (DeploymentModel.id d ∈ seen)
      then unique_from seen l
      else d :: unique_from (DeploymentModel.id d :: seen) l
  end.

(** Lines 69-77. [offset] and [limit] are row counts; [None] leaves the
    clause out. *)
Definition read_deployments (offset limit : option nat) (t : deployment_table)
  : list DeploymentModel.t :=
  let query := merge_sort id_le (model_of <$> map_to_list t) in
  let query := match offset with
               | Some o => drop o query
               | None => query
               end in
  let query := match limit with
               | Some l => take l query
               | None => query
               end in
  unique_from [] query.

(** Lines 90-93: [DELETE FROM deployment WHERE id = deployment_id]; the
    value is [result.rowcount > 0]. *)
Definition delete_deployment (deployment_id : UUID) (t : deployment_table)
  : bool * deployment_table :=
  (bool_decide (is_Some (t !! deployment_id)), delete deployment_id t).

(** No two stored deployments have the same name. *)
Definition names_unique (t : deployment_table) : Prop :=
  ∀ i j vi vj, t !! i = Some vi → t !! j = Some vj → vi.1 = vj.1 → i = j.

(** The session of the scheduling functions, reading its deployments from
    table [t]. *)
Definition session_over (t : deployment_table) (w : World) : World :=
  mkWorld (bind_dialect_name w) (settings_dialect w) (snd <$> t)
          (flow_run w) (flow_run_state w) (uuid_source w) (uuid_drawn w)
          (now_source w) (now_read w).

(** A table with two deployments. *)
Definition sample_table : deployment_table :=
  {[ 5%N := ("hourly", sample_deployment);
     3%N := ("nightly", orm.Deployment.mk 8%N []) ]}.

Definition new_deployment : DeploymentModel.t :=
  DeploymentModel.mk 4%N "weekly" (orm.Deployment.mk 8%N []).

(** ** Migration 3a7c41d3b464: description and code example of block types *)

Module migration.

(** A column as [sa.Column(name, type, nullable=...)] declares it; the
    migration uses the type [sa.String()] only. *)
Inductive column_type : Type := sa_String | sa_other (type_name : string).

Record Column : Type := mkColumn {
  column_name : string;
  type_ : column_type;
  nullable : bool
}.

(** The tables of the database and, for each, its columns in order. *)
Abbreviation db_schema := (gmap string (list Column)).

(** The conditions under which the backend refuses the two statements. *)
Inductive ddl_error : Type :=
  | UndefinedTable (table_name : string)
  | DuplicateColumn (table_name column : string)
  | UndefinedColumn (table_name column : string).

Definition revision : string := "3a7c41d3b464".
Definition down_revision : string := "77ebcc9cf355".

(** [op.add_column(table_name, column)]: ALTER TABLE ... ADD COLUMN; the new
    column comes last. *)
Definition add_column (table_name : string) (column : Column) (s : db_schema)
  : ddl_error + db_schema :=
  match s !! table_name with
  | None => inl (UndefinedTable table_name)
  | Some columns =>
      if decide (column_name column ∈ column_name <$> columns)
      then inl (DuplicateColumn table_name (column_name column))
      else inr (<[table_name := columns ++ [column]]> s)
  end.

(** [op.drop_column(table_name, column_name)]: ALTER TABLE ... DROP COLUMN. *)
Definition drop_column (table_name : string) (name : string) (s : db_schema)
  : ddl_error + db_schema :=
  match s !! table_name with
  | None => inl (UndefinedTable table_name)
  | Some columns =>
      if decide (name ∈ column_name <$> columns)
      then inr (<[table_name :=
                    filter (fun c => column_name c ≠ name) columns]> s)
      else inl (UndefinedColumn table_name name)
  end.

Definition and_then (r : ddl_error + db_schema)
    (k : db_schema → ddl_error + db_schema) : ddl_error + db_schema :=
  match r with
  | inl e => inl e
  | inr s => k s
  end.

Definition upgrade (s : db_schema) : ddl_error + db_schema :=
  and_then (add_column "block_type" (mkColumn "description" sa_String true) s)
           (add_column "block_type" (mkColumn "code_example" sa_String true)).

Definition downgrade (s : db_schema) : ddl_error + db_schema :=
  and_then (drop_column "block_type" "code_example" s)
           (drop_column "block_type" "description").

(** A database with the table of block types and one more. *)
Definition sample_schema : db_schema :=
  {[ "block_type" := [mkColumn "id" (sa_other "UUID") false;
                      mkColumn "name" sa_String false];
     "block_schema" := [mkColumn "id" (sa_other "UUID") false] ]}.

End migration.

(** * Proofs *)

(** ** The monad *)

Lemma bind_Ok {A B} (m : M A) (k : A → M B) w b w' :
  bind m k w = Ok b w' ↔ ∃ a w1, m w = Ok a w1 ∧ k a w1 = Ok b w'.
Proof.
  unfold bind. split.
  - destruct (m w) as [a w1|e w1]; [eauto | discriminate].
  - intros (a & w1 & -> & Hk). exact Hk.
Qed.

Lemma bind_Raise {A B} (m : M A) (k : A → M B) w e w' :
  bind m k w = Raise e w' ↔
  m w = Raise e w' ∨ ∃ a w1, m w = Ok a w1 ∧ k a w1 = Raise e w'.
Proof.
  unfold bind. split.
  - destruct (m w) as [a w1|e1 w1]; [eauto | left; congruence].
  - intros [-> | (a & w1 & -> & Hk)]; done.
Qed.

Lemma with_flow_run_id w : with_flow_run (flow_run w) w = w.
Proof. by destruct w. Qed.

Lemma with_flow_run_state_id w : with_flow_run_state (flow_run_state w) w = w.
Proof. by destruct w. Qed.

Lemma with_flow_run_twice t1 t2 w :
  with_flow_run t2 (with_flow_run t1 w) = with_flow_run t2 w.
Proof. by destruct w. Qed.

Lemma with_flow_run_state_twice t1 t2 w :
  with_flow_run_state t2 (with_flow_run_state t1 w) = with_flow_run_state t2 w.
Proof. by destruct w. Qed.

(** ** The bulk insert *)

Lemma key_present_lookup t f k :
  key_present t f k ↔
  ∃ x row, t !! x = Some row ∧ orm.FlowRun.flow_id row = f
           ∧ orm.FlowRun.idempotency_key row = k.
Proof. unfold key_present. by rewrite map_Exists_lookup. Qed.

Lemma key_present_mono t1 t2 f k :
  t1 ⊆ t2 → key_present t1 f k → key_present t2 f k.
Proof.
  rewrite !key_present_lookup. intros Hsub (x & row & Hx & Hf & Hk).
  exists x, row. split_and!; [|done..]. by eapply lookup_weaken.
Qed.

Lemma has_state_lookup t x :
  has_state t x ↔ ∃ sid s, t !! sid = Some s ∧ orm.FlowRunState.flow_run_id s = x.
Proof. unfold has_state. by rewrite map_Exists_lookup. Qed.

Lemma unique_keys_insert t r :
  unique_keys t →
  ¬ key_present t (schemas.FlowRun.flow_id r) (schemas.FlowRun.idempotency_key r) →
  unique_keys (<[schemas.FlowRun.id r := flow_run_values r]> t).
Proof.
  intros Hu Hnk x y rx ry Hx Hy Hf Hk.
  destruct (decide (x = schemas.FlowRun.id r)) as [Hex|Hnx];
    destruct (decide (y = schemas.FlowRun.id r)) as [Hey|Hny];
    [congruence| subst x | subst y |].
  - rewrite lookup_insert_eq in Hx. rewrite lookup_insert_ne in Hy by done.
    injection Hx as <-. exfalso. apply Hnk, key_present_lookup.
    exists y, ry. by split_and!.
  - rewrite lookup_insert_eq in Hy. rewrite lookup_insert_ne in Hx by done.
    injection Hy as <-. exfalso. apply Hnk, key_present_lookup.
    exists x, rx. by split_and!.
  - rewrite lookup_insert_ne in Hx, Hy by done. eauto.
Qed.

(** The three outcomes of inserting one row. *)
Lemma insert_flow_run_row_cases r w :
  (key_present (flow_run w) (schemas.FlowRun.flow_id r)
               (schemas.FlowRun.idempotency_key r)
   ∧ insert_flow_run_row r w = Ok tt w)
  ∨ (¬ key_present (flow_run w) (schemas.FlowRun.flow_id r)
                   (schemas.FlowRun.idempotency_key r)
     ∧ is_Some (flow_run w !! schemas.FlowRun.id r)
     ∧ insert_flow_run_row r w = Raise IntegrityError w)
  ∨ (¬ key_present (flow_run w) (schemas.FlowRun.flow_id r)
                   (schemas.FlowRun.idempotency_key r)
     ∧ flow_run w !! schemas.FlowRun.id r = None
     ∧ insert_flow_run_row r w =
         Ok tt (with_flow_run
                  (<[schemas.FlowRun.id r := flow_run_values r]> (flow_run w)) w)).
Proof.
  unfold insert_flow_run_row. case_decide as Hk; [by left|].
  destruct (flow_run w !! schemas.FlowRun.id r) eqn:Hid.
  - right; left. eauto.
  - right; right. eauto.
Qed.

Lemma bulk_insert_post_refl rows w : bulk_insert_post rows w w.
Proof.
  split; [by rewrite with_flow_run_id | done | done |].
  intros x row H1 H2. congruence.
Qed.

Lemma bulk_insert_post_step r rows w w1 w' :
  bulk_insert_post [r] w w1 → bulk_insert_post rows w1 w' →
  bulk_insert_post (r :: rows) w w'.
Proof.
  intros [Hw1 Hg1 Hu1 Hn1] [Hw2 Hg2 Hu2 Hn2]. split.
  - rewrite Hw2 at 1. rewrite Hw1. by rewrite with_flow_run_twice.
  - by etrans.
  - auto.
  - intros x row Hx Hnone.
    destruct (flow_run w1 !! x) as [row1|] eqn:Hx1.
    + destruct (Hn1 x row1 Hx1 Hnone) as (r' & Hr' & -> & ->).
      apply list_elem_of_singleton in Hr' as ->.
      exists r. split; [left|]. split; [done|].
      eapply lookup_weaken in Hx1; [|exact Hg2]. congruence.
    + destruct (Hn2 x row Hx Hx1) as (r' & Hr' & ? & ?).
      exists r'. split; [by right | done].
Qed.

Lemma insert_flow_run_row_post r w :
  bulk_insert_post [r] w (world_of (insert_flow_run_row r w)).
Proof.
  destruct (insert_flow_run_row_cases r w)
    as [(_ & ->) | [(_ & _ & ->) | (Hnk & Hid & ->)]]; simpl;
    try apply bulk_insert_post_refl.
  split; simpl.
  - by destruct w.
  - by apply insert_subseteq.
  - intros Hu. by apply unique_keys_insert.
  - intros x row Hx Hnone. exists r. split; [left|].
    destruct (decide (schemas.FlowRun.id r = x)) as [<-|Hne].
    + rewrite lookup_insert_eq in Hx. by injection Hx as <-.
    + rewrite lookup_insert_ne in Hx by done. congruence.
Qed.

Lemma execute_insert_flow_runs_post ins rows w :
  bulk_insert_post rows w (world_of (execute_insert_flow_runs ins rows w)).
Proof.
  revert w. induction rows as [|r rows IH]; intros w; simpl.
  { apply bulk_insert_post_refl. }
  pose proof (insert_flow_run_row_post r w) as H1.
  unfold bind. destruct (insert_flow_run_row r w) as [[] w1|e w1]; simpl in *.
  - eapply bulk_insert_post_step; [exact H1 | apply IH].
  - eapply bulk_insert_post_step; [exact H1 | apply bulk_insert_post_refl].
Qed.

(** When the bulk insert returns, the key of every submitted candidate is in
    the table. *)
Lemma execute_insert_flow_runs_present ins rows w w' :
  execute_insert_flow_runs ins rows w = Ok tt w' →
  ∀ r, r ∈ rows →
       key_present (flow_run w') (schemas.FlowRun.flow_id r)
                   (schemas.FlowRun.idempotency_key r).
Proof.
  revert w. induction rows as [|r0 rows IH]; intros w Hex r Hr.
  { by apply elem_of_nil in Hr. }
  simpl in Hex. apply bind_Ok in Hex as ([] & w1 & H1 & H2).
  pose proof (execute_insert_flow_runs_post ins rows w1) as Hpost.
  rewrite H2 in Hpost. simpl in Hpost.
  apply elem_of_cons in Hr as [->|Hr]; [|by eapply IH].
  eapply key_present_mono; [apply (bip_grows _ _ _ Hpost)|].
  destruct (insert_flow_run_row_cases r0 w)
    as [(Hk & Heq) | [(_ & _ & Heq) | (_ & _ & Heq)]];
    rewrite Heq in H1; [ | discriminate | ]; injection H1 as <-; [done|].
  apply key_present_lookup. exists (schemas.FlowRun.id r0), (flow_run_values r0).
  simpl. by rewrite lookup_insert_eq.
Qed.

(** A batch whose keys are all present is skipped whole; nothing is raised. *)
Lemma execute_insert_flow_runs_skip ins rows w :
  (∀ r, r ∈ rows →
        key_present (flow_run w) (schemas.FlowRun.flow_id r)
                    (schemas.FlowRun.idempotency_key r)) →
  execute_insert_flow_runs ins rows w = Ok tt w.
Proof.
  induction rows as [|r rows IH]; intros Hall; [done|].
  simpl. unfold bind, insert_flow_run_row.
  rewrite decide_True by (apply Hall; left).
  apply IH. intros r' Hr'. apply Hall. by right.
Qed.

Lemma bind_world {A B} (P : World → Prop) (m : M A) (k : A → M B) w :
  P (world_of (m w)) →
  (∀ a w1, m w = Ok a w1 → P w1 → P (world_of (k a w1))) →
  P (world_of (bind m k w)).
Proof.
  intros Hm Hk. unfold bind. destruct (m w) as [a w1|e w1]; simpl in *; auto.
Qed.

(** ** The query for the new rows *)

Lemma elem_of_inserted_rows ids w x :
  x ∈ inserted_rows ids w ↔
  x ∈ ids ∧ is_Some (flow_run w !! x) ∧ ¬ has_state (flow_run_state w) x.
Proof.
  unfold inserted_rows. rewrite list_elem_of_fmap. split.
  - intros ([k row] & -> & Hin). apply elem_of_map_to_list in Hin.
    apply map_lookup_filter_Some in Hin as (Hrow & Hids & Hns). simpl in *.
    split_and!; [done | by eexists | done].
  - intros (Hids & [row Hrow] & Hns). exists (x, row). split; [done|].
    apply elem_of_map_to_list, map_lookup_filter_Some. by split_and!.
Qed.

(** ** The insert of the states *)

Lemma state_insert_post_refl rows w : state_insert_post rows w w.
Proof.
  split; [by rewrite with_flow_run_state_id | done |].
  intros sid s H1 H2. congruence.
Qed.

Lemma execute_insert_flow_run_states_post rows w :
  state_insert_post rows w (world_of (execute_insert_flow_run_states rows w)).
Proof.
  revert w. induction rows as [|[sid0 s0] rows IH]; intros w; simpl.
  { apply state_insert_post_refl. }
  unfold bind, insert_flow_run_state_row. simpl.
  destruct (flow_run_state w !! sid0) as [s'|] eqn:Hsid; simpl.
  { apply state_insert_post_refl. }
  specialize (IH (with_flow_run_state (<[sid0:=s0]> (flow_run_state w)) w)).
  destruct IH as [Hw Hg Hn]. split.
  - rewrite Hw at 1. by rewrite with_flow_run_state_twice.
  - etrans; [|exact Hg]. simpl. by apply insert_subseteq.
  - intros sid s Hs Hnone.
    destruct (decide (sid = sid0)) as [->|Hne].
    + assert (flow_run_state
                (with_flow_run_state (<[sid0:=s0]> (flow_run_state w)) w)
                !! sid0 = Some s0) as H0 by (simpl; apply lookup_insert_eq).
      eapply lookup_weaken in H0; [|exact Hg].
      assert (s = s0) as -> by congruence. left.
    + right. apply Hn; [done|]. simpl. by rewrite lookup_insert_ne.
Qed.

(** When the insert of the states returns, every submitted state is stored
    under its own id, and none of these ids was in use. *)
Lemma execute_insert_flow_run_states_stored rows w w' :
  execute_insert_flow_run_states rows w = Ok tt w' →
  ∀ sid s, (sid, s) ∈ rows →
           flow_run_state w' !! sid = Some s ∧ flow_run_state w !! sid = None.
Proof.
  revert w. induction rows as [|[sid0 s0] rows IH]; intros w Hex sid s Hin.
  { by apply elem_of_nil in Hin. }
  simpl in Hex. apply bind_Ok in Hex as ([] & w1 & H1 & H2).
  unfold insert_flow_run_state_row in H1. simpl in H1.
  destruct (flow_run_state w !! sid0) eqn:Hsid0; [discriminate|].
  injection H1 as <-.
  pose proof (execute_insert_flow_run_states_post rows
                (with_flow_run_state (<[sid0:=s0]> (flow_run_state w)) w)) as Hp.
  rewrite H2 in Hp. simpl in Hp.
  apply elem_of_cons in Hin as [Heq|Hin].
  - injection Heq as -> ->. split; [|done].
    eapply lookup_weaken; [|apply (sip_grows _ _ _ Hp)].
    simpl. apply lookup_insert_eq.
  - destruct (IH _ H2 sid s Hin) as [Hs Hn]. split; [done|].
    simpl in Hn. apply lookup_insert_None in Hn. tauto.
Qed.

(** ** The two linking statements *)

Lemma update_from_lookup ids w x :
  flow_run (world_of (update_from ids w)) !! x =
  (fun row => match head (new_states_of (flow_run_state w) ids x) with
              | Some sid => orm.FlowRun.set_state_id (Some sid) row
              | None => row
              end) <$> flow_run w !! x.
Proof.
  simpl. rewrite map_lookup_imap.
  destruct (flow_run w !! x) as [row|]; simpl; [|done].
  by destruct (head _).
Qed.

Lemma update_correlated_subquery_lookup ids w x :
  flow_run (world_of (update_correlated_subquery ids w)) !! x =
  orm.FlowRun.set_state_id (head (new_states_of (flow_run_state w) ids x))
    <$> flow_run w !! x.
Proof.
  simpl. rewrite map_lookup_imap. by destruct (flow_run w !! x).
Qed.

Lemma same_keys_refl t : same_keys t t.
Proof. intros x. by destruct (t !! x). Qed.


Lemma same_keys_present t t' f k :
  same_keys t t' → key_present t f k → key_present t' f k.
Proof.
  rewrite !key_present_lookup. intros Hs (x & row & Hx & Hf & Hk).
  pose proof (Hs x) as Hsx. rewrite Hx in Hsx.
  destruct (t' !! x) as [row'|] eqn:Hx'; [|done].
  destruct Hsx as [? ?]. exists x, row'. split_and!; congruence.
Qed.

Lemma same_keys_lookup_None t t' x : same_keys t t' → t !! x = None → t' !! x = None.
Proof.
  intros Hs Hx. pose proof (Hs x) as Hsx. rewrite Hx in Hsx.
  by destruct (t' !! x).
Qed.

Lemma same_keys_lookup_Some t t' x :
  same_keys t t' → is_Some (t' !! x) → is_Some (t !! x).
Proof.
  intros Hs [row' Hx']. pose proof (Hs x) as Hsx. rewrite Hx' in Hsx.
  destruct (t !! x); [by eexists | done].
Qed.

Lemma update_from_same_keys ids w :
  same_keys (flow_run w) (flow_run (world_of (update_from ids w))).
Proof.
  intros x. rewrite update_from_lookup.
  destruct (flow_run w !! x) as [row|]; simpl; [|done].
  by destruct (head _).
Qed.

Lemma update_correlated_subquery_same_keys ids w :
  same_keys (flow_run w) (flow_run (world_of (update_correlated_subquery ids w))).
Proof.
  intros x. rewrite update_correlated_subquery_lookup.
  by destruct (flow_run w !! x) as [row|].
Qed.

(** ** The materializer, statement by statement *)

Lemma insert_scheduled_Ok runs w res w' :
  _insert_scheduled_flow_runs runs w = Ok res w' →
  ∃ ins w1,
    execute_insert_flow_runs ins runs w = Ok tt w1
    ∧ res = new_runs runs w1
    ∧ ((new_runs runs w1 = [] ∧ w' = w1)
       ∨ (new_runs runs w1 ≠ []
          ∧ ∃ w2,
              execute_insert_flow_run_states
                (state_values <$> new_runs runs w1) w1 = Ok tt w2
              ∧ w' = world_of
                       (link_states (state_values <$> new_runs runs w1).*1 w2))).
Proof.
  unfold _insert_scheduled_flow_runs. intros H.
  apply bind_Ok in H as (name & w0 & Hname & H).
  injection Hname as <- <-.
  apply bind_Ok in H as (ins & w0 & Hins & H).
  assert (w0 = w) as ->.
  { repeat case_decide; unfold ret, raise in Hins; congruence. }
  apply bind_Ok in H as ([] & w1 & Hex & H).
  apply bind_Ok in H as (ids & w1' & Hsel & H).
  injection Hsel as <- <-.
  apply bind_Ok in H as ([] & w2 & Hlink & Hret).
  injection Hret as <- <-.
  exists ins, w1. split; [done|]. split; [done|].
  fold (new_runs runs w1) in Hlink |- *.
  destruct (new_runs runs w1) as [|r0 rs] eqn:Hnew; simpl in Hlink.
  - left. split; [done|]. unfold ret in Hlink. congruence.
  - right. split; [done|].
    apply bind_Ok in Hlink as ([] & w3 & Hst & Hlink).
    exists w3. split; [done|].
    apply bind_Ok in Hlink as (d & w4 & Hd & Hlink).
    injection Hd as <- <-. unfold link_states.
    revert Hlink.
    destruct (decide (settings_dialect w3 = "postgresql"));
      unfold update_from, update_correlated_subquery; simpl; congruence.
Qed.

Lemma link_states_same_keys ids w :
  same_keys (flow_run w) (flow_run (world_of (link_states ids w))).
Proof.
  unfold link_states. case_decide.
  - apply update_from_same_keys.
  - apply update_correlated_subquery_same_keys.
Qed.

Lemma link_states_flow_run_state ids w :
  flow_run_state (world_of (link_states ids w)) = flow_run_state w.
Proof. unfold link_states. by case_decide. Qed.



(** ** The generator in closed form *)

Section GeneratorFacts.
Context `{Library}.

Lemma candidates_app source dep dep_id k l1 l2 :
  candidates source dep dep_id k (l1 ++ l2)
  = candidates source dep dep_id k l1
    ++ candidates source dep dep_id (k + 2 * length l1) l2.
Proof.
  revert k. induction l1 as [|sd l1 IH]; intros k; simpl.
  - by rewrite Nat.add_0_r.
  - rewrite IH. do 3 f_equal. lia.
Qed.

Lemma length_candidates source dep dep_id k l :
  length (candidates source dep dep_id k l) = length l.
Proof. revert k. induction l; intros k; simpl; auto. Qed.

Lemma with_uuid_drawn_same w : with_uuid_drawn (uuid_drawn w) w = w.
Proof. by destruct w. Qed.

Lemma for_dates_closed dep dep_id s dates runs w :
  for_dates dep dep_id s dates runs w
  = Ok (runs ++ candidates (uuid_source w) dep dep_id (uuid_drawn w)
                           ((fun d => (s, d)) <$> dates))
       (with_uuid_drawn (uuid_drawn w + 2 * length dates) w).
Proof.
  revert runs w. induction dates as [|d dates IH]; intros runs w; simpl.
  - rewrite app_nil_r, Nat.add_0_r, with_uuid_drawn_same. done.
  - unfold bind at 1. unfold new_flow_run, bind, uuid4, ret. simpl.
    rewrite IH. simpl. rewrite <- app_assoc. simpl.
    f_equal. unfold with_uuid_drawn. simpl. f_equal. lia.
Qed.

Lemma occurrences_cons s schedules n st et :
  occurrences (s :: schedules) n st et
  = ((fun d => (s, d)) <$> orm.Schedule.clock_get_dates s n st et)
    ++ occurrences schedules n st et.
Proof. done. Qed.

Lemma for_schedules_closed dep dep_id n st et schedules runs w :
  for_schedules dep dep_id n st et schedules runs w
  = Ok (runs ++ candidates (uuid_source w) dep dep_id (uuid_drawn w)
                           (occurrences schedules n st et))
       (with_uuid_drawn
          (uuid_drawn w + 2 * length (occurrences schedules n st et)) w).
Proof.
  revert runs w. induction schedules as [|s schedules IH]; intros runs w.
  - simpl. rewrite app_nil_r, Nat.add_0_r, with_uuid_drawn_same. done.
  - rewrite occurrences_cons. simpl. unfold bind.
    rewrite for_dates_closed, IH. simpl.
    rewrite candidates_app, length_app, length_fmap, <- app_assoc.
    f_equal. unfold with_uuid_drawn. simpl. f_equal. lia.
Qed.

(** The window the generator works with, after the defaults. *)
Lemma resolve_window_closed start_time end_time max_runs w :
  resolve_window start_time end_time max_runs w
  = Ok (match max_runs with Some n => n | None => 100 end,
        match start_time with
        | Some t => t
        | None => now_source w (now_read w)
        end,
        match end_time with
        | Some t => t
        | None =>
            add_years 1
              (now_source w (match start_time with
                             | Some _ => now_read w
                             | None => S (now_read w)
                             end))
        end)
       (with_now_read
          (now_read w
           + (match start_time with Some _ => 0 | None => 1 end)
           + (match end_time with Some _ => 0 | None => 1 end))%nat w).
Proof.
  unfold resolve_window, bind, ret, pendulum_now, with_now_read.
  destruct max_runs, start_time, end_time; simpl;
    repeat f_equal; destruct w; simpl; f_equal; lia.
Qed.

Lemma generate_closed dep_id start_time end_time max_runs w n st et w0 :
  resolve_window start_time end_time max_runs w = Ok (n, st, et) w0 →
  _generate_scheduled_flow_runs dep_id start_time end_time max_runs w
  = match deployment w !! dep_id with
    | None =>
        Raise (AttributeError "'NoneType' object has no attribute 'schedules'")
              w0
    | Some dep =>
        Ok (candidates (uuid_source w) dep dep_id (uuid_drawn w)
              (occurrences (orm.Deployment.schedules dep) n st et))
           (with_uuid_drawn
              (uuid_drawn w
               + 2 * length (occurrences (orm.Deployment.schedules dep)
                                         n st et)) w0)
    end.
Proof.
  intros Hw. unfold _generate_scheduled_flow_runs, bind. rewrite Hw.
  rewrite resolve_window_closed in Hw. injection Hw as <- <- <- <-.
  unfold session_get_deployment. simpl.
  destruct (deployment w !! dep_id) as [dep|]; [|done].
  rewrite for_schedules_closed. done.
Qed.

End GeneratorFacts.

(** ** The claims about the materializer *)

Lemma insert_scheduled_unrecognized runs w :
  bind_dialect_name w ≠ "sqlite" →
  bind_dialect_name w ≠ "postgresql" →
  _insert_scheduled_flow_runs runs w
  = Raise (ValueError ("Unrecognized dialect: " +:+ bind_dialect_name w)) w.
Proof.
  intros Hs Hp. unfold _insert_scheduled_flow_runs, bind. simpl.
  rewrite decide_False by done. rewrite decide_False by done. done.
Qed.

Lemma insert_scheduled_Ok_dialect runs w res w' :
  _insert_scheduled_flow_runs runs w = Ok res w' →
  bind_dialect_name w = "sqlite" ∨ bind_dialect_name w = "postgresql".
Proof.
  intros Hrun.
  destruct (decide (bind_dialect_name w = "sqlite")) as [|Hs]; [by left|].
  destruct (decide (bind_dialect_name w = "postgresql")) as [|Hp]; [by right|].
  rewrite insert_scheduled_unrecognized in Hrun by done. discriminate.
Qed.

(** C8. A materializer call on a session whose dialect name is neither
    "sqlite" nor "postgresql" raises [ValueError] (the configuration error),
    whatever the candidates; it does so before any statement is executed, so
    the session is left as it was and no linking strategy is chosen. *)
Theorem unrecognized_dialect_raises (runs : list schemas.FlowRun.t) (w : World) :
  bind_dialect_name w ≠ "sqlite" →
  bind_dialect_name w ≠ "postgresql" →
  _insert_scheduled_flow_runs runs w
  = Raise (ValueError ("Unrecognized dialect: " +:+ bind_dialect_name w)) w.
Proof. apply insert_scheduled_unrecognized. Qed.

(** C5. When the materializer returns, the ids it treated as new are exactly
    the submitted ids that, in the session as the bulk insert left it, are
    rows of [flow_run] without any row of [flow_run_state]; the result is the
    candidates with such an id, in their order; and every state the call
    created belongs to one of these ids, which had no state before the
    call. *)
Theorem new_rows_are_the_stateless_submitted_rows
    (runs : list schemas.FlowRun.t) (w : World)
    (res : list schemas.FlowRun.t) (w' : World) :
  _insert_scheduled_flow_runs runs w = Ok res w' →
  ∃ ins w1,
    execute_insert_flow_runs ins runs w = Ok tt w1
    ∧ (∀ x, x ∈ inserted_rows (schemas.FlowRun.id <$> runs) w1 ↔
            x ∈ schemas.FlowRun.id <$> runs
            ∧ is_Some (flow_run w1 !! x)
            ∧ ¬ has_state (flow_run_state w1) x)
    ∧ res = filter (fun r => schemas.FlowRun.id r
                             ∈ inserted_rows (schemas.FlowRun.id <$> runs) w1)
                   runs
    ∧ (∀ sid s,
         flow_run_state w' !! sid = Some s →
         flow_run_state w !! sid = None →
         orm.FlowRunState.flow_run_id s
           ∈ inserted_rows (schemas.FlowRun.id <$> runs) w1
         ∧ ¬ has_state (flow_run_state w) (orm.FlowRunState.flow_run_id s)).
Proof.
  intros Hrun.
  apply insert_scheduled_Ok in Hrun as (ins & w1 & Hex & -> & Hlink).
  exists ins, w1. split; [done|].
  split; [intros x; apply elem_of_inserted_rows|]. split; [done|].
  pose proof (execute_insert_flow_runs_post ins runs w) as Hp.
  rewrite Hex in Hp. simpl in Hp.
  assert (flow_run_state w1 = flow_run_state w) as Hst1.
  { rewrite (bip_world _ _ _ Hp). done. }
  intros sid s Hs Hnone.
  destruct Hlink as [(_ & ->) | (_ & w2 & Hins & ->)]; [congruence|].
  rewrite link_states_flow_run_state in Hs.
  pose proof (execute_insert_flow_run_states_post
                (state_values <$> new_runs runs w1) w1) as Hsp.
  rewrite Hins in Hsp. simpl in Hsp.
  rewrite <- Hst1 in Hnone |- *.
  apply (sip_new _ _ _ Hsp) in Hs; [|done].
  apply list_elem_of_fmap in Hs as (r & Heq & Hr).
  injection Heq as -> ->. simpl.
  apply list_elem_of_filter in Hr as [Hin _]. split; [done|].
  by apply elem_of_inserted_rows in Hin as (_ & _ & ?).
Qed.


Lemma insert_scheduled_sublist runs w res w' :
  _insert_scheduled_flow_runs runs w = Ok res w' → res `sublist_of` runs.
Proof.
  intros Hrun.
  apply insert_scheduled_Ok in Hrun as (ins & w1 & _ & -> & _).
  apply sublist_filter.
Qed.

Lemma bulk_insert_post_world rows w w' :
  bulk_insert_post rows w w' → ∃ t, w' = with_flow_run t w.
Proof. intros Hp. eexists. apply (bip_world _ _ _ Hp). Qed.

Lemma state_insert_post_world rows w w' :
  state_insert_post rows w w' → ∃ t, w' = with_flow_run_state t w.
Proof. intros Hp. eexists. apply (sip_world _ _ _ Hp). Qed.

(** The materializer writes to the two tables only. *)
Lemma insert_scheduled_frame runs w res w' :
  _insert_scheduled_flow_runs runs w = Ok res w' →
  w' = with_flow_run (flow_run w') (with_flow_run_state (flow_run_state w') w).
Proof.
  intros Hrun.
  apply insert_scheduled_Ok in Hrun as (ins & w1 & Hex & _ & Hlink).
  pose proof (execute_insert_flow_runs_post ins runs w) as Hp.
  rewrite Hex in Hp. apply bulk_insert_post_world in Hp as [t1 Hw1].
  simpl in Hw1. subst w1.
  destruct Hlink as [(_ & ->) | (_ & w2 & Hins & ->)].
  - by destruct w.
  - pose proof (execute_insert_flow_run_states_post
                  (state_values <$> new_runs runs (with_flow_run t1 w))
                  (with_flow_run t1 w)) as Hsp.
    rewrite Hins in Hsp. apply state_insert_post_world in Hsp as [t2 Hw2].
    simpl in Hw2. subst w2.
    unfold link_states. case_decide; simpl; by destruct w.
Qed.

(** When the materializer returns, the key of every candidate is stored. *)
Lemma insert_scheduled_present runs w res w' :
  _insert_scheduled_flow_runs runs w = Ok res w' →
  ∀ r, r ∈ runs →
       key_present (flow_run w') (schemas.FlowRun.flow_id r)
                   (schemas.FlowRun.idempotency_key r).
Proof.
  intros Hrun r Hr.
  apply insert_scheduled_Ok in Hrun as (ins & w1 & Hex & _ & Hlink).
  pose proof (execute_insert_flow_runs_present _ _ _ _ Hex r Hr) as Hk.
  destruct Hlink as [(_ & ->) | (_ & w2 & Hins & ->)]; [done|].
  pose proof (execute_insert_flow_run_states_post
                (state_values <$> new_runs runs w1) w1) as Hsp.
  rewrite Hins in Hsp. simpl in Hsp.
  eapply same_keys_present; [apply link_states_same_keys|].
  rewrite (sip_world _ _ _ Hsp). done.
Qed.

(** The rows of [flow_run] after a materializer call are the rows before it
    and rows of submitted candidates. *)
Lemma insert_scheduled_rows runs w res w' x :
  _insert_scheduled_flow_runs runs w = Ok res w' →
  is_Some (flow_run w' !! x) →
  is_Some (flow_run w !! x) ∨ x ∈ schemas.FlowRun.id <$> runs.
Proof.
  intros Hrun Hx.
  apply insert_scheduled_Ok in Hrun as (ins & w1 & Hex & _ & Hlink).
  pose proof (execute_insert_flow_runs_post ins runs w) as Hp.
  rewrite Hex in Hp. simpl in Hp.
  assert (is_Some (flow_run w1 !! x)) as [row1 Hx1].
  { destruct Hlink as [(_ & ->) | (_ & w2 & Hins & ->)]; [done|].
    pose proof (execute_insert_flow_run_states_post
                  (state_values <$> new_runs runs w1) w1) as Hsp.
    rewrite Hins in Hsp. simpl in Hsp.
    eapply same_keys_lookup_Some in Hx; [|apply link_states_same_keys].
    rewrite (sip_world _ _ _ Hsp) in Hx. done. }
  destruct (flow_run w !! x) as [row|] eqn:Hx0; [left; by eexists|right].
  destruct (bip_new _ _ _ Hp x row1 Hx1 Hx0) as (r & Hr & -> & _).
  by apply list_elem_of_fmap_2.
Qed.

(** A materializer call on candidates that are all stored already, under
    ids that are not ids of rows, returns no run and changes nothing. *)
Lemma insert_scheduled_nothing_new runs w :
  bind_dialect_name w = "sqlite" ∨ bind_dialect_name w = "postgresql" →
  (∀ r, r ∈ runs →
        key_present (flow_run w) (schemas.FlowRun.flow_id r)
                    (schemas.FlowRun.idempotency_key r)) →
  (∀ r, r ∈ runs → flow_run w !! schemas.FlowRun.id r = None) →
  _insert_scheduled_flow_runs runs w = Ok [] w.
Proof.
  intros Hd Hkeys Hfresh.
  assert (inserted_rows (schemas.FlowRun.id <$> runs) w = []) as Hnone.
  { apply elem_of_nil_inv. intros x Hx.
    apply elem_of_inserted_rows in Hx as (Hin & [row Hrow] & _).
    apply list_elem_of_fmap in Hin as (r & -> & Hr).
    rewrite (Hfresh r Hr) in Hrow. discriminate. }
  assert (∀ l : list schemas.FlowRun.t,
            filter (fun r => schemas.FlowRun.id r ∈ @nil UUID) l = []) as Hfil.
  { intros l. apply elem_of_nil_inv. intros r Hr.
    apply list_elem_of_filter in Hr as [Hr _]. by apply elem_of_nil in Hr. }
  unfold _insert_scheduled_flow_runs, bind. simpl.
  assert (∀ k : insert_construct → M (list schemas.FlowRun.t),
            (∀ ins, k ins w = Ok [] w) →
            match (if decide (bind_dialect_name w = "sqlite")
                   then ret insert_sqlite
                   else if decide (bind_dialect_name w = "postgresql")
                        then ret insert_postgres
                        else raise (ValueError ("Unrecognized dialect: "
                                                +:+ bind_dialect_name w))) w
            with
            | Ok a w' => k a w'
            | Raise e w' => Raise e w'
            end = Ok [] w) as Hsel.
  { intros k Hk. destruct Hd as [Hd|Hd]; rewrite Hd; simpl; apply Hk. }
  apply (Hsel (fun ins w0 => match execute_insert_flow_runs ins runs w0 with
                             | Ok a w' => _
                             | Raise e w' => Raise e w'
                             end)).
  intros ins. rewrite execute_insert_flow_runs_skip by done.
  unfold select_inserted_rows. rewrite Hnone, Hfil. done.
Qed.

(** Under either strategy, a run created by a materializer call is linked to
    the state of a candidate with its id, stored by the same call. *)
Lemma insert_scheduled_links runs w res w' x row :
  states_owned w →
  _insert_scheduled_flow_runs runs w = Ok res w' →
  flow_run w !! x = None →
  flow_run w' !! x = Some row →
  ∃ r, r ∈ runs
       ∧ schemas.FlowRun.id r = x
       ∧ orm.FlowRun.state_id row
         = Some (schemas.State.id (schemas.FlowRun.state r))
       ∧ flow_run_state w' !! schemas.State.id (schemas.FlowRun.state r)
         = Some (state_values r).2
       ∧ flow_run_state w !! schemas.State.id (schemas.FlowRun.state r) = None.
Proof.
  intros Hown Hrun Hx0 Hx'.
  pose proof (insert_scheduled_rows _ _ _ _ x Hrun (mk_is_Some _ _ Hx'))
    as [[? ?]|Hsub]; [congruence|].
  apply insert_scheduled_Ok in Hrun as (ins & w1 & Hex & _ & Hlink).
  pose proof (execute_insert_flow_runs_post ins runs w) as Hp.
  rewrite Hex in Hp. simpl in Hp.
  assert (flow_run_state w1 = flow_run_state w) as Hst1.
  { rewrite (bip_world _ _ _ Hp). done. }
  assert (¬ has_state (flow_run_state w1) x) as Hns.
  { rewrite Hst1. intros (sid & s & Hs & Hfr)%has_state_lookup.
    destruct (Hown sid s Hs) as [? ?]. congruence. }
  destruct Hlink as [(Hnil & ->) | (_ & w2 & Hins & ->)].
  { (* nothing was linked: then [x], a new stateless row, was not detected *)
    exfalso.
    apply list_elem_of_fmap in Hsub as (r & -> & Hr).
    assert (r ∈ new_runs runs w1) as Hin; [|rewrite Hnil in Hin; by apply elem_of_nil in Hin].
    apply list_elem_of_filter. split; [|done].
    apply elem_of_inserted_rows. split_and!; [by apply list_elem_of_fmap_2 | by eexists | done]. }
  pose proof (execute_insert_flow_run_states_post
                (state_values <$> new_runs runs w1) w1) as Hsp.
  rewrite Hins in Hsp. simpl in Hsp.
  pose proof (execute_insert_flow_run_states_stored _ _ _ Hins) as Hstored.
  assert (flow_run w2 = flow_run w1) as Hfr2.
  { rewrite (sip_world _ _ _ Hsp). done. }
  rewrite link_states_flow_run_state.
  (* the subquery selects a state for [x] *)
  assert (is_Some (flow_run w1 !! x)) as [row1 Hx1].
  { rewrite <- Hfr2. eapply same_keys_lookup_Some; [apply link_states_same_keys|].
    by eexists. }
  set (ids := (state_values <$> new_runs runs w1).*1) in *.
  assert (∃ sid, head (new_states_of (flow_run_state w2) ids x) = Some sid)
    as [sid Hhead].
  { apply list_elem_of_fmap in Hsub as (r & -> & Hr).
    assert (r ∈ new_runs runs w1) as Hin.
    { apply list_elem_of_filter. split; [|done].
      apply elem_of_inserted_rows.
      split_and!; [by apply list_elem_of_fmap_2 | by eexists | done]. }
    assert ((state_values r).1 ∈ new_states_of (flow_run_state w2) ids
                                   (schemas.FlowRun.id r)) as Hmem.
    { apply list_elem_of_filter. split.
      - destruct (Hstored (state_values r).1 (state_values r).2) as [-> _]; [|done].
        rewrite <- surjective_pairing. by apply list_elem_of_fmap_2.
      - unfold ids. apply list_elem_of_fmap_2. by apply list_elem_of_fmap_2. }
    destruct (new_states_of _ _ _) as [|sid l]; [by apply elem_of_nil in Hmem|].
    by exists sid. }
  pose proof (head_Some_elem_of _ _ Hhead) as Hsid.
  apply list_elem_of_filter in Hsid as [Hsx Hsid].
  unfold ids in Hsid.
  apply list_elem_of_fmap in Hsid as ([sid' s'] & -> & Hsid). simpl in *.
  destruct (Hstored sid' s' Hsid) as [Hs2 Hs1].
  apply list_elem_of_fmap in Hsid as (r' & Heq & Hr').
  apply list_elem_of_filter in Hr' as [_ Hr'].
  injection Heq as -> ->.
  rewrite Hs2 in Hsx. simpl in Hsx. injection Hsx as Hidr'.
  exists r'. split; [done|]. split; [done|].
  split; [|split; [done | by rewrite <- Hst1]].
  revert Hx'. unfold link_states. case_decide.
  - rewrite update_from_lookup, Hhead, Hfr2, Hx1. simpl. by intros [= <-].
  - rewrite update_correlated_subquery_lookup, Hhead, Hfr2, Hx1. simpl.
    by intros [= <-].
Qed.

(** ** The claims about the generator and about [schedule_runs] *)

Section GeneratorClaims.
Context `{Library}.

Lemma candidates_scheduled source dep dep_id k l r :
  r ∈ candidates source dep dep_id k l →
  schemas.State.type (schemas.FlowRun.state r) = SCHEDULED.
Proof.
  revert k. induction l as [|sd l IH]; intros k Hr; simpl in Hr.
  - by apply elem_of_nil in Hr.
  - apply elem_of_cons in Hr as [->|Hr]; [done | by eapply IH].
Qed.

Lemma candidates_provenance source dep dep_id k l :
  provenance <$> candidates source dep dep_id k l
  = (fun sd => (Some (orm.Schedule.id sd.1), Some sd.2)) <$> l.
Proof.
  revert k. induction l as [|sd l IH]; intros k; simpl; [done|].
  by rewrite IH.
Qed.

Lemma candidates_ids source dep dep_id k l r :
  r ∈ candidates source dep dep_id k l →
  ∃ j, (k ≤ j < k + 2 * length l)%nat ∧ schemas.FlowRun.id r = source j.
Proof.
  revert k. induction l as [|sd l IH]; intros k Hr; simpl in Hr.
  - by apply elem_of_nil in Hr.
  - apply elem_of_cons in Hr as [->|Hr].
    + exists (S k). simpl. split; [lia | done].
    + destruct (IH _ Hr) as (j & Hj & Hid). exists j. simpl. split; [lia | done].
Qed.

Lemma candidates_keys source dep dep_id k k' l r :
  r ∈ candidates source dep dep_id k' l →
  ∃ r1, r1 ∈ candidates source dep dep_id k l
        ∧ schemas.FlowRun.flow_id r1 = schemas.FlowRun.flow_id r
        ∧ schemas.FlowRun.idempotency_key r1
          = schemas.FlowRun.idempotency_key r.
Proof.
  revert k k'. induction l as [|sd l IH]; intros k k' Hr; simpl in Hr.
  - by apply elem_of_nil in Hr.
  - apply elem_of_cons in Hr as [->|Hr].
    + eexists. split; [left | done].
    + destruct (IH (S (S k)) _ Hr) as (r1 & Hr1 & ? & ?).
      exists r1. split; [by right | done].
Qed.

Lemma concat_chunks source dep dep_id k schedules n st et :
  concat (chunks source dep dep_id k schedules n st et)
  = candidates source dep dep_id k (occurrences schedules n st et).
Proof.
  revert k. induction schedules as [|s schedules IH]; intros k; [done|].
  rewrite occurrences_cons, candidates_app. simpl. by rewrite IH.
Qed.

Lemma chunks_per_schedule source dep dep_id k schedules n st et :
  Forall2 (fun s chunk =>
             provenance <$> chunk
             = (fun d => (Some (orm.Schedule.id s), Some d))
                 <$> orm.Schedule.clock_get_dates s n st et)
          schedules (chunks source dep dep_id k schedules n st et).
Proof.
  revert k. induction schedules as [|s schedules IH]; intros k; simpl.
  - constructor.
  - constructor; [|apply IH].
    rewrite candidates_provenance, <- list_fmap_compose. done.
Qed.

Lemma length_occurrences_le schedules n st et :
  Forall clock_contract schedules →
  (Z.of_nat (length (occurrences schedules n st et))
   ≤ Z.of_nat (length schedules) * Z.max 0 n)%Z.
Proof.
  induction 1 as [|s schedules Hs _ IH]; [done|].
  rewrite occurrences_cons, length_app, length_fmap. simpl length.
  destruct (Hs n st et) as [Hlen _]. lia.
Qed.

Lemma length_occurrences_exact schedules n st et :
  Forall (fun s => length (orm.Schedule.clock_get_dates s n st et)
                   = Z.to_nat n) schedules →
  length (occurrences schedules n st et)
  = (length schedules * Z.to_nat n)%nat.
Proof.
  induction 1 as [|s schedules Hs _ IH]; [done|].
  rewrite occurrences_cons, length_app, length_fmap. simpl length. lia.
Qed.

(** C9. For a stored deployment whose clocks keep their contract, the
    candidates of one generator call split, in order, into one chunk per
    schedule; the chunk of a schedule carries the dates its clock returned
    for [(max_runs, start_time, end_time)], so it has at most [max_runs]
    candidates, all inside the window. The bound is per schedule: the total
    is at most the number of schedules times [max_runs], and it is exactly
    that when every clock returns [max_runs] dates. *)
Theorem max_runs_bounds_each_schedule
    (dep_id : UUID) (start_time end_time : option datetime)
    (max_runs : option Z) (w : World) (dep : orm.Deployment.t)
    (n : Z) (st et : datetime) (w0 : World) :
  resolve_window start_time end_time max_runs w = Ok (n, st, et) w0 →
  deployment w !! dep_id = Some dep →
  Forall clock_contract (orm.Deployment.schedules dep) →
  ∃ runs w' parts,
    _generate_scheduled_flow_runs dep_id start_time end_time max_runs w
    = Ok runs w'
    ∧ runs = concat parts
    ∧ Forall2 (fun s chunk =>
                 provenance <$> chunk
                 = (fun d => (Some (orm.Schedule.id s), Some d))
                     <$> orm.Schedule.clock_get_dates s n st et
                 ∧ (Z.of_nat (length chunk) ≤ Z.max 0 n)%Z
                 ∧ Forall (fun r => ∃ d,
                               schemas.State.scheduled_time
                                 (schemas.FlowRun.state r) = Some d
                               ∧ (st ≤ d ≤ et)%Z) chunk)
              (orm.Deployment.schedules dep) parts
    ∧ (Z.of_nat (length runs)
       ≤ Z.of_nat (length (orm.Deployment.schedules dep)) * Z.max 0 n)%Z
    ∧ (Forall (fun s => length (orm.Schedule.clock_get_dates s n st et)
                        = Z.to_nat n) (orm.Deployment.schedules dep) →
       length runs
       = (length (orm.Deployment.schedules dep) * Z.to_nat n)%nat).
Proof.
  intros Hw Hdep Hclocks.
  rewrite (generate_closed _ _ _ _ _ _ _ _ _ Hw), Hdep.
  eexists _, _, (chunks (uuid_source w) dep dep_id (uuid_drawn w)
                        (orm.Deployment.schedules dep) n st et).
  split; [done|]. split; [by rewrite concat_chunks|].
  split; [|split].
  - pose proof (chunks_per_schedule (uuid_source w) dep dep_id (uuid_drawn w)
                  (orm.Deployment.schedules dep) n st et) as Hch.
    revert Hclocks. induction Hch as [|s chunk ss cs Hprov _ IH];
      intros Hclocks; [constructor|].
    apply Forall_cons in Hclocks as [Hs Hss].
    constructor; [|by apply IH].
    destruct (Hs n st et) as [Hlen Hin].
    split; [done|].
    assert (length chunk
            = length (orm.Schedule.clock_get_dates s n st et)) as Hl.
    { by rewrite <- (length_fmap provenance chunk), Hprov, length_fmap. }
    split; [lia|].
    apply Forall_forall. intros r Hr.
    assert (provenance r ∈ provenance <$> chunk) as Hp
        by by apply list_elem_of_fmap_2.
    rewrite Hprov in Hp. apply list_elem_of_fmap in Hp as (d & Hpd & Hd).
    exists d. split; [by injection Hpd|].
    rewrite Forall_forall in Hin. by apply Hin.
  - rewrite length_candidates. by apply length_occurrences_le.
  - intros Hexact. rewrite length_candidates.
    by apply length_occurrences_exact.
Qed.

End GeneratorClaims.

Lemma insert_scheduled_frame_ex runs w res w' :
  _insert_scheduled_flow_runs runs w = Ok res w' →
  ∃ t s, w' = with_flow_run t (with_flow_run_state s w).
Proof. intros Hrun. eexists _, _. by eapply insert_scheduled_frame. Qed.

Section ScheduleRunsClaims.
Context `{Library}.

(** What a returning call of [schedule_runs] went through. *)
Lemma schedule_runs_Ok dep_id start_time end_time max_runs w res w' :
  schedule_runs dep_id start_time end_time max_runs w = Ok res w' →
  ∃ n st et w0 dep,
    resolve_window start_time end_time max_runs w = Ok (n, st, et) w0
    ∧ deployment w !! dep_id = Some dep
    ∧ let runs := candidates (uuid_source w) dep dep_id (uuid_drawn w)
                    (occurrences (orm.Deployment.schedules dep) n st et) in
      let wg := with_uuid_drawn
                  (uuid_drawn w
                   + 2 * length (occurrences (orm.Deployment.schedules dep)
                                             n st et)) w0 in
      _generate_scheduled_flow_runs dep_id start_time end_time max_runs w
      = Ok runs wg
      ∧ _insert_scheduled_flow_runs runs wg = Ok res w'.
Proof.
  unfold schedule_runs. intros Hrun.
  apply bind_Ok in Hrun as (runs & wg & Hgen & Hmat).
  pose proof (resolve_window_closed start_time end_time max_runs w) as Hw.
  rewrite (generate_closed _ _ _ _ _ _ _ _ _ Hw) in Hgen.
  destruct (deployment w !! dep_id) as [dep|] eqn:Hdep; [|discriminate].
  injection Hgen as <- <-.
  eexists _, _, _, _, dep. split; [exact Hw|]. split; [done|].
  simpl. split; [|done].
  by rewrite (generate_closed _ _ _ _ _ _ _ _ _ Hw), Hdep.
Qed.

(** C6, as the code has it. The three defaults are applied one by one:
    [max_runs] becomes 100; [start_time] becomes a reading of the clock;
    [end_time] becomes one year after a reading of the clock taken when
    this default is applied, whether or not [start_time] was supplied. The
    clocks of the schedules are queried with these three values. *)
Theorem window_defaults
    (dep_id : UUID) (start_time end_time : option datetime)
    (max_runs : option Z) (w : World) :
  let n := match max_runs with Some n => n | None => 100%Z end in
  let st := match start_time with
            | Some t => t
            | None => now_source w (now_read w)
            end in
  let et := match end_time with
            | Some t => t
            | None =>
                add_years 1
                  (now_source w (match start_time with
                                 | Some _ => now_read w
                                 | None => S (now_read w)
                                 end))
            end in
  let w0 := with_now_read
              (now_read w
               + (match start_time with Some _ => 0 | None => 1 end)
               + (match end_time with Some _ => 0 | None => 1 end))%nat w in
  resolve_window start_time end_time max_runs w = Ok (n, st, et) w0
  ∧ _generate_scheduled_flow_runs dep_id start_time end_time max_runs w
    = match deployment w !! dep_id with
      | Some dep =>
          for_schedules dep dep_id n st et (orm.Deployment.schedules dep) [] w0
      | None =>
          Raise (AttributeError
                   "'NoneType' object has no attribute 'schedules'") w0
      end.
Proof.
  cbv zeta. split; [apply resolve_window_closed|].
  unfold _generate_scheduled_flow_runs, bind.
  rewrite resolve_window_closed. unfold session_get_deployment. simpl.
  by destruct (deployment w !! dep_id).
Qed.

(** C7, as the code has it. For an id that is not the id of a stored
    deployment, the generator, and with it [schedule_runs], raises the
    [AttributeError] of reading [schedules] from [None]: at once, without
    building a candidate, and without a change to either table. *)
Theorem missing_deployment_raises
    (dep_id : UUID) (start_time end_time : option datetime)
    (max_runs : option Z) (w : World) :
  deployment w !! dep_id = None →
  ∃ w0,
    _generate_scheduled_flow_runs dep_id start_time end_time max_runs w
    = Raise (AttributeError "'NoneType' object has no attribute 'schedules'")
            w0
    ∧ schedule_runs dep_id start_time end_time max_runs w
      = Raise (AttributeError "'NoneType' object has no attribute 'schedules'")
              w0
    ∧ flow_run w0 = flow_run w
    ∧ flow_run_state w0 = flow_run_state w
    ∧ uuid_drawn w0 = uuid_drawn w.
Proof.
  intros Hdep.
  pose proof (resolve_window_closed start_time end_time max_runs w) as Hw.
  pose proof (generate_closed dep_id _ _ _ _ _ _ _ _ Hw) as Hgen.
  rewrite Hdep in Hgen.
  eexists. split; [exact Hgen|]. split; [|done].
  unfold schedule_runs, bind. by rewrite Hgen.
Qed.

(** C10. The runs [schedule_runs] returns are a subsequence of the
    candidates as generated, and these are in generation order: schedule
    after schedule as the deployment lists them, and for one schedule in
    the order of the dates its clock returned. *)
Theorem schedule_runs_keeps_generation_order
    (dep_id : UUID) (start_time end_time : option datetime)
    (max_runs : option Z) (w : World)
    (res : list schemas.FlowRun.t) (w' : World) :
  schedule_runs dep_id start_time end_time max_runs w = Ok res w' →
  ∃ n st et w0 dep runs wg,
    resolve_window start_time end_time max_runs w = Ok (n, st, et) w0
    ∧ deployment w !! dep_id = Some dep
    ∧ _generate_scheduled_flow_runs dep_id start_time end_time max_runs w
      = Ok runs wg
    ∧ provenance <$> runs
      = (fun sd => (Some (orm.Schedule.id sd.1), Some sd.2))
          <$> occurrences (orm.Deployment.schedules dep) n st et
    ∧ _insert_scheduled_flow_runs runs wg = Ok res w'
    ∧ res `sublist_of` runs.
Proof.
  intros Hrun.
  apply schedule_runs_Ok in Hrun
    as (n & st & et & w0 & dep & Hw & Hdep & Hgen & Hmat).
  eexists n, st, et, w0, dep, _, _.
  split; [done|]. split; [done|]. split; [exact Hgen|].
  split; [apply candidates_provenance|]. split; [exact Hmat|].
  by eapply insert_scheduled_sublist.
Qed.

(** C3. When [schedule_runs] returns, every row of [flow_run] the call
    created has a [state_id], and it is the id of a row of
    [flow_run_state] that the same call created for this run, of type
    SCHEDULED. The session the call started from has no state row without
    its run. *)
Theorem schedule_runs_leaves_no_orphan
    (dep_id : UUID) (start_time end_time : option datetime)
    (max_runs : option Z) (w : World)
    (res : list schemas.FlowRun.t) (w' : World) :
  states_owned w →
  schedule_runs dep_id start_time end_time max_runs w = Ok res w' →
  ∀ x row,
    flow_run w !! x = None →
    flow_run w' !! x = Some row →
    ∃ sid s,
      orm.FlowRun.state_id row = Some sid
      ∧ flow_run_state w' !! sid = Some s
      ∧ flow_run_state w !! sid = None
      ∧ orm.FlowRunState.flow_run_id s = x
      ∧ orm.FlowRunState.type s = SCHEDULED.
Proof.
  intros Hown Hrun x row Hx Hx'.
  apply schedule_runs_Ok in Hrun
    as (n & st & et & w0 & dep & Hw & Hdep & _ & Hmat).
  rewrite resolve_window_closed in Hw. injection Hw as <- <- <- <-.
  eapply (insert_scheduled_links _ _ _ _ x row) in Hmat; [|done..].
  destruct Hmat as (r & Hr & Hid & Hsid & Hs' & Hs).
  eexists _, _. split; [exact Hsid|]. split; [exact Hs'|].
  split; [exact Hs|]. split; [done|].
  simpl. by eapply candidates_scheduled.
Qed.

(** C2. For a fixed window, a second call of [schedule_runs] with the
    arguments of a first call that returned returns no run and leaves both
    tables as the first call left them. [uuid4] is taken to return fresh
    values. *)
Theorem schedule_runs_is_idempotent
    (dep_id : UUID) (start_time end_time : datetime)
    (max_runs : option Z) (w : World)
    (res : list schemas.FlowRun.t) (w1 : World) :
  uuid4_unique w →
  schedule_runs dep_id (Some start_time) (Some end_time) max_runs w
  = Ok res w1 →
  ∃ w2,
    schedule_runs dep_id (Some start_time) (Some end_time) max_runs w1
    = Ok [] w2
    ∧ flow_run w2 = flow_run w1
    ∧ flow_run_state w2 = flow_run_state w1.
Proof.
  intros [Hinj Hfresh] Hrun.
  apply schedule_runs_Ok in Hrun
    as (n & st & et & w0 & dep & Hw & Hdep & _ & Hmat).
  rewrite resolve_window_closed in Hw. injection Hw as <- <- <- <-.
  set (occ := occurrences (orm.Deployment.schedules dep)
                (match max_runs with Some n => n | None => 100%Z end)
                start_time end_time) in *.
  pose proof (insert_scheduled_Ok_dialect _ _ _ _ Hmat) as Hdialect.
  pose proof (insert_scheduled_present _ _ _ _ Hmat) as Hpresent.
  pose proof (fun x => insert_scheduled_rows _ _ _ _ x Hmat) as Hrows.
  apply insert_scheduled_frame_ex in Hmat as (t & s & ->).
  simpl in *.
  unfold schedule_runs, bind.
  erewrite generate_closed by apply resolve_window_closed.
  simpl. rewrite Hdep. fold occ.
  rewrite insert_scheduled_nothing_new; [eexists; done | done | |].
  - intros r2 Hr2. simpl.
    destruct (candidates_keys (uuid_source w) dep dep_id (uuid_drawn w)
                _ _ _ Hr2) as (r1 & Hr1 & <- & <-).
    by apply Hpresent.
  - intros r2 Hr2. simpl.
    apply candidates_ids in Hr2 as (j & Hj & ->).
    apply eq_None_not_Some. intros Hsome.
    destruct (Hrows _ Hsome) as [[row Hrow]|Hin].
    + rewrite Hfresh in Hrow by lia. discriminate.
    + apply list_elem_of_fmap in Hin as (r1 & Hid & Hr1).
      apply candidates_ids in Hr1 as (j1 & Hj1 & Hid1).
      rewrite Hid1 in Hid. apply Hinj in Hid. lia.
Qed.

End ScheduleRunsClaims.

Lemma every_instant_contract i p :
  clock_contract (orm.Schedule.mk i every_instant p).
Proof.
  intros n st et. simpl. unfold every_instant. split.
  - rewrite length_take. lia.
  - apply Forall_take, Forall_seqZ. intros j Hj. lia.
Qed.

Lemma sample_call_eq :
  sample_call = Ok sample_runs (world_of sample_call).
Proof. vm_compute. reflexivity. Qed.

Lemma sample_world_uuid4_unique d : uuid4_unique (sample_world d).
Proof.
  split; simpl.
  - intros i j Hij. lia.
  - intros k _. apply lookup_empty.
Qed.

Lemma sample_world_states_owned d : states_owned (sample_world d).
Proof. intros sid s Hs. simpl in Hs. by rewrite lookup_empty in Hs. Qed.


(** ** The claims at sample sessions *)

(** C1, on a store with one linked run, for a materializer call with one new
    candidate. With the sqlite statement the call links the new run and sets
    the [state_id] of the stored run, which is no new run, to NULL; with the
    postgresql statement the stored run keeps its state. The two strategies
    differ on the rows outside the new set. *)
Theorem sqlite_linking_unlinks_stored_runs :
  orm.FlowRun.state_id <$> flow_run (stored_world "sqlite") !! 1%N
  = Some (Some 2%N)
  ∧ result_value (_insert_scheduled_flow_runs [next_candidate]
                                              (stored_world "sqlite"))
    = Some [next_candidate]
  ∧ orm.FlowRun.state_id
      <$> flow_run (world_of (_insert_scheduled_flow_runs
                                [next_candidate] (stored_world "sqlite")))
          !! 3%N
    = Some (Some 4%N)
  ∧ orm.FlowRun.state_id
      <$> flow_run (world_of (_insert_scheduled_flow_runs
                                [next_candidate] (stored_world "sqlite")))
          !! 1%N
    = Some None
  ∧ orm.FlowRun.state_id
      <$> flow_run (world_of (_insert_scheduled_flow_runs
                                [next_candidate] (stored_world "postgresql")))
          !! 1%N
    = Some (Some 2%N).
Proof. repeat split; vm_compute; reflexivity. Qed.

Lemma unrecognized_dialect_raises_witness :
  _insert_scheduled_flow_runs [next_candidate] (stored_world "mysql")
  = Raise (ValueError "Unrecognized dialect: mysql") (stored_world "mysql").
Proof.
  apply (unrecognized_dialect_raises [next_candidate] (stored_world "mysql"));
    simpl; discriminate.
Defined.

Lemma new_rows_are_the_stateless_submitted_rows_witness :
  ∃ ins w1,
    execute_insert_flow_runs ins [next_candidate] (stored_world "sqlite")
    = Ok tt w1
    ∧ (∀ x, x ∈ inserted_rows [3%N] w1 ↔
            x ∈ [3%N] ∧ is_Some (flow_run w1 !! x)
            ∧ ¬ has_state (flow_run_state w1) x)
    ∧ [next_candidate]
      = filter (fun r => schemas.FlowRun.id r ∈ inserted_rows [3%N] w1)
               [next_candidate]
    ∧ (∀ sid s,
         flow_run_state
           (world_of (_insert_scheduled_flow_runs [next_candidate]
                                                  (stored_world "sqlite")))
           !! sid = Some s →
         flow_run_state (stored_world "sqlite") !! sid = None →
         orm.FlowRunState.flow_run_id s ∈ inserted_rows [3%N] w1
         ∧ ¬ has_state (flow_run_state (stored_world "sqlite"))
                       (orm.FlowRunState.flow_run_id s)).
Proof.
  apply (new_rows_are_the_stateless_submitted_rows
           [next_candidate] (stored_world "sqlite") [next_candidate]
           (world_of (_insert_scheduled_flow_runs [next_candidate]
                                                  (stored_world "sqlite")))).
  vm_compute. reflexivity.
Defined.


Lemma missing_deployment_raises_witness :
  deployment (sample_world "sqlite") !! 6%N = None
  ∧ ∃ w0,
      @_generate_scheduled_flow_runs sample_library 6%N None None None
                                     (sample_world "sqlite")
      = Raise (AttributeError "'NoneType' object has no attribute 'schedules'")
              w0
      ∧ @schedule_runs sample_library 6%N None None None (sample_world "sqlite")
        = Raise (AttributeError "'NoneType' object has no attribute 'schedules'")
                w0
      ∧ flow_run w0 = flow_run (sample_world "sqlite")
      ∧ flow_run_state w0 = flow_run_state (sample_world "sqlite")
      ∧ uuid_drawn w0 = uuid_drawn (sample_world "sqlite").
Proof.
  split; [reflexivity|].
  apply (@missing_deployment_raises sample_library 6%N None None None
                                    (sample_world "sqlite")).
  reflexivity.
Defined.

Lemma max_runs_bounds_each_schedule_witness :
  ∃ runs w',
    sample_candidates = Ok runs w'
    ∧ (Z.of_nat (length runs) ≤ 2 * 2)%Z
    ∧ length runs = 4%nat.
Proof.
  destruct (@max_runs_bounds_each_schedule sample_library 5%N
              (Some 10%Z) (Some 20%Z) (Some 2%Z) (sample_world "sqlite")
              sample_deployment 2%Z 10%Z 20%Z (sample_world "sqlite"))
    as (runs & w' & parts & Hgen & _ & _ & Hle & Hexact).
  - reflexivity.
  - reflexivity.
  - repeat constructor; apply every_instant_contract.
  - exists runs, w'. split; [exact Hgen|]. split; [exact Hle|].
    apply Hexact. repeat constructor.
Defined.

Lemma schedule_runs_keeps_generation_order_witness :
  ∃ n st et w0 dep runs wg,
    @resolve_window sample_library (Some 10%Z) (Some 20%Z) (Some 2%Z)
                    (sample_world "sqlite") = Ok (n, st, et) w0
    ∧ deployment (sample_world "sqlite") !! 5%N = Some dep
    ∧ sample_candidates = Ok runs wg
    ∧ provenance <$> runs
      = (fun sd => (Some (orm.Schedule.id sd.1), Some sd.2))
          <$> occurrences (orm.Deployment.schedules dep) n st et
    ∧ _insert_scheduled_flow_runs runs wg
      = Ok sample_runs (world_of sample_call)
    ∧ sample_runs `sublist_of` runs.
Proof.
  apply (@schedule_runs_keeps_generation_order sample_library 5%N
           (Some 10%Z) (Some 20%Z) (Some 2%Z) (sample_world "sqlite")
           sample_runs (world_of sample_call)).
  exact sample_call_eq.
Defined.

Lemma schedule_runs_leaves_no_orphan_witness :
  states_owned (sample_world "sqlite")
  ∧ sample_call = Ok sample_runs (world_of sample_call)
  ∧ ∀ x row,
      flow_run (sample_world "sqlite") !! x = None →
      flow_run (world_of sample_call) !! x = Some row →
      ∃ sid s,
        orm.FlowRun.state_id row = Some sid
        ∧ flow_run_state (world_of sample_call) !! sid = Some s
        ∧ flow_run_state (sample_world "sqlite") !! sid = None
        ∧ orm.FlowRunState.flow_run_id s = x
        ∧ orm.FlowRunState.type s = SCHEDULED.
Proof.
  split; [apply sample_world_states_owned|].
  split; [exact sample_call_eq|].
  apply (@schedule_runs_leaves_no_orphan sample_library 5%N
           (Some 10%Z) (Some 20%Z) (Some 2%Z) (sample_world "sqlite")
           sample_runs (world_of sample_call)).
  - apply sample_world_states_owned.
  - exact sample_call_eq.
Defined.

Lemma schedule_runs_is_idempotent_witness :
  length sample_runs = 4%nat
  ∧ ∃ w2,
      @schedule_runs sample_library 5%N (Some 10%Z) (Some 20%Z) (Some 2%Z)
                     (world_of sample_call) = Ok [] w2
      ∧ flow_run w2 = flow_run (world_of sample_call)
      ∧ flow_run_state w2 = flow_run_state (world_of sample_call).
Proof.
  split; [reflexivity|].
  apply (@schedule_runs_is_idempotent sample_library 5%N 10%Z 20%Z (Some 2%Z)
           (sample_world "sqlite") sample_runs (world_of sample_call)).
  - apply sample_world_uuid4_unique.
  - exact sample_call_eq.
Defined.

(** ** Where the code departs from a claim *)

(** C6 as stated fails: with [start_time] supplied and [end_time] omitted,
    the window does not end one year after [start_time]. In the sample
    session the clock reads 1000 and [start_time] is 0: the window ends one
    year after 1000. *)
Lemma window_end_is_not_start_plus_one_year :
  ¬ (∀ (L : Library) (start_time : datetime) (max_runs : option Z) (w : World),
       ∃ n w',
         @resolve_window L (Some start_time) None max_runs w
         = Ok (n, start_time, @add_years L 1 start_time) w').
Proof.
  intros Hclaim.
  destruct (Hclaim sample_library 0%Z None (sample_world "sqlite"))
    as (n & w' & Heq).
  vm_compute in Heq. discriminate Heq.
Qed.

(** C7 as stated fails: for a missing deployment the generator does not
    raise the NotFound condition; in the sample session, for id 6, it raises
    [AttributeError]. *)
Lemma missing_deployment_is_not_reported_as_not_found :
  ¬ (∀ (L : Library) (dep_id : UUID) (start_time end_time : option datetime)
       (max_runs : option Z) (w : World),
       deployment w !! dep_id = None →
       ∃ w0,
         @_generate_scheduled_flow_runs L dep_id start_time end_time max_runs w
         = Raise ObjectNotFound w0).
Proof.
  intros Hclaim.
  destruct (Hclaim sample_library 6%N None None None (sample_world "sqlite"))
    as (w0 & Heq); [reflexivity|].
  vm_compute in Heq. discriminate Heq.
Qed.

(** * Further properties of the code *)

(** ** What a materializer call keeps *)

Lemma keeps_runs_refl t : keeps_runs t t.
Proof. intros x row Hx. by exists row. Qed.

Lemma keeps_runs_trans t1 t2 t3 :
  keeps_runs t1 t2 → keeps_runs t2 t3 → keeps_runs t1 t3.
Proof.
  intros H12 H23 x row Hx.
  destruct (H12 x row Hx) as (row2 & Hx2 & Heq2).
  destruct (H23 x row2 Hx2) as (row3 & Hx3 & Heq3).
  exists row3. split; [done | congruence].
Qed.

Lemma keeps_runs_subseteq t t' : t ⊆ t' → keeps_runs t t'.
Proof.
  intros Hsub x row Hx. exists row. split; [|done]. by eapply lookup_weaken.
Qed.

Lemma update_from_keeps_runs ids w :
  keeps_runs (flow_run w) (flow_run (world_of (update_from ids w))).
Proof.
  intros x row Hx. rewrite update_from_lookup, Hx. simpl.
  destruct (head _); eexists; (split; [done|]); by destruct row.
Qed.

Lemma update_correlated_subquery_keeps_runs ids w :
  keeps_runs (flow_run w)
             (flow_run (world_of (update_correlated_subquery ids w))).
Proof.
  intros x row Hx. rewrite update_correlated_subquery_lookup, Hx. simpl.
  eexists. split; [done|]. by destruct row.
Qed.

(** X1. A materializer call never removes a stored run and never rewrites a
    column of it other than [state_id]; this holds whether the call returns
    or raises. *)
Theorem materializer_keeps_stored_runs
    (runs : list schemas.FlowRun.t) (w : World) (x : UUID)
    (row : orm.FlowRun.t) :
  flow_run w !! x = Some row →
  ∃ row',
    flow_run (world_of (_insert_scheduled_flow_runs runs w)) !! x = Some row'
    ∧ orm.FlowRun.flow_id row' = orm.FlowRun.flow_id row
    ∧ orm.FlowRun.deployment_id row' = orm.FlowRun.deployment_id row
    ∧ orm.FlowRun.parameters row' = orm.FlowRun.parameters row
    ∧ orm.FlowRun.idempotency_key row' = orm.FlowRun.idempotency_key row
    ∧ orm.FlowRun.tags row' = orm.FlowRun.tags row
    ∧ orm.FlowRun.flow_run_details row' = orm.FlowRun.flow_run_details row.
Proof.
  intros Hx.
  assert (keeps_runs (flow_run w)
            (flow_run (world_of (_insert_scheduled_flow_runs runs w)))) as Hk.
  { clear x row Hx. unfold _insert_scheduled_flow_runs.
    apply (bind_world (fun w' => keeps_runs (flow_run w) (flow_run w')));
      [apply keeps_runs_refl|].
    intros name ? [= <- <-] _.
    apply (bind_world (fun w' => keeps_runs (flow_run w) (flow_run w'))).
    { repeat case_decide; apply keeps_runs_refl. }
    intros ins w0 Hins _.
    assert (w0 = w) as ->.
    { repeat case_decide; unfold ret, raise in Hins; congruence. }
    clear Hins.
    pose proof (execute_insert_flow_runs_post ins runs w) as Hpost.
    apply (bind_world (fun w' => keeps_runs (flow_run w) (flow_run w'))).
    { apply keeps_runs_subseteq, (bip_grows _ _ _ Hpost). }
    intros [] w1 Hex Hk1. clear Hpost.
    apply (bind_world (fun w' => keeps_runs (flow_run w) (flow_run w')));
      [done|].
    intros ids ? [= <- <-] _.
    apply (bind_world (fun w' => keeps_runs (flow_run w) (flow_run w')));
      [|by intros [] w2 _ ?].
    destruct (state_values <$> _) as [|s0 ss]; [done|].
    pose proof (execute_insert_flow_run_states_post (s0 :: ss) w1) as Hsp.
    apply (bind_world (fun w' => keeps_runs (flow_run w) (flow_run w'))).
    { rewrite (sip_world _ _ _ Hsp). done. }
    intros [] w2 Hst Hk2.
    apply (bind_world (fun w' => keeps_runs (flow_run w) (flow_run w')));
      [done|].
    intros d ? [= <- <-] _.
    case_decide.
    - eapply keeps_runs_trans; [exact Hk2 | apply update_from_keeps_runs].
    - eapply keeps_runs_trans;
        [exact Hk2 | apply update_correlated_subquery_keeps_runs]. }
  destruct (Hk x row Hx) as (row' & Hx' & Heq).
  exists row'. split; [done|].
  destruct row, row'. simpl in *. injection Heq as -> -> -> -> -> ->. done.
Qed.

Lemma materializer_keeps_stored_runs_witness :
  flow_run (stored_world "sqlite") !! 1%N = Some stored_run
  ∧ ∃ row',
      flow_run (world_of (_insert_scheduled_flow_runs
                            [next_candidate] (stored_world "sqlite")))
        !! 1%N = Some row'
      ∧ orm.FlowRun.flow_id row' = orm.FlowRun.flow_id stored_run
      ∧ orm.FlowRun.deployment_id row' = orm.FlowRun.deployment_id stored_run
      ∧ orm.FlowRun.parameters row' = orm.FlowRun.parameters stored_run
      ∧ orm.FlowRun.idempotency_key row'
        = orm.FlowRun.idempotency_key stored_run
      ∧ orm.FlowRun.tags row' = orm.FlowRun.tags stored_run
      ∧ orm.FlowRun.flow_run_details row'
        = orm.FlowRun.flow_run_details stored_run.
Proof.
  split; [reflexivity|].
  apply (materializer_keeps_stored_runs [next_candidate]
           (stored_world "sqlite") 1%N stored_run).
  reflexivity.
Defined.

(** A property of the session that each statement of the materializer keeps
    is kept by the materializer, whether it returns or raises. *)
Lemma insert_scheduled_invariant (P : World → Prop) runs w :
  P w →
  (∀ ins w0, P w0 → P (world_of (execute_insert_flow_runs ins runs w0))) →
  (∀ w1, P w1 →
         P (world_of (execute_insert_flow_run_states
                        (state_values <$> new_runs runs w1) w1))) →
  (∀ ids w2, P w2 → P (world_of (update_from ids w2))) →
  (∀ ids w2, P w2 → P (world_of (update_correlated_subquery ids w2))) →
  P (world_of (_insert_scheduled_flow_runs runs w)).
Proof.
  intros Hw Hbulk Hstates Hfrom Hsub. unfold _insert_scheduled_flow_runs.
  apply bind_world; [done|]. intros name ? [= <- <-] _.
  apply bind_world.
  { repeat case_decide; done. }
  intros ins w0 Hins _.
  assert (w0 = w) as ->.
  { repeat case_decide; unfold ret, raise in Hins; congruence. }
  clear Hins.
  apply bind_world; [by apply Hbulk|].
  intros [] w1 Hex Hw1.
  apply bind_world; [done|]. intros ids ? [= <- <-] _.
  apply bind_world; [|by intros [] w2 _ ?].
  specialize (Hstates w1 Hw1). unfold new_runs in Hstates.
  destruct (state_values <$> _) as [|s0 ss]; [done|].
  apply bind_world; [done|].
  intros [] w2 Hst Hw2.
  apply bind_world; [done|]. intros d ? [= <- <-] _.
  case_decide; auto.
Qed.

(** X2. A materializer call never removes or rewrites a stored state: every
    row of [flow_run_state] is found unchanged after the call, whether the
    call returns or raises. *)
Theorem materializer_keeps_stored_states
    (runs : list schemas.FlowRun.t) (w : World) (sid : UUID)
    (s : orm.FlowRunState.t) :
  flow_run_state w !! sid = Some s →
  flow_run_state (world_of (_insert_scheduled_flow_runs runs w)) !! sid
  = Some s.
Proof.
  intros Hs. eapply lookup_weaken; [exact Hs|].
  apply (insert_scheduled_invariant
           (fun w' => flow_run_state w ⊆ flow_run_state w')); [done|..].
  - intros ins w0 H0.
    pose proof (execute_insert_flow_runs_post ins runs w0) as Hp.
    rewrite (bip_world _ _ _ Hp). done.
  - intros w1 H1. etrans; [exact H1|].
    apply (sip_grows _ _ _ (execute_insert_flow_run_states_post _ w1)).
  - done.
  - done.
Qed.

Lemma materializer_keeps_stored_states_witness :
  flow_run_state (stored_world "sqlite") !! 2%N = Some stored_state
  ∧ flow_run_state (world_of (_insert_scheduled_flow_runs
                                [next_candidate] (stored_world "sqlite")))
      !! 2%N = Some stored_state.
Proof.
  split; [reflexivity|].
  apply (materializer_keeps_stored_states [next_candidate]
           (stored_world "sqlite") 2%N stored_state).
  reflexivity.
Defined.

Lemma same_keys_lookup_is_Some t t' x :
  same_keys t t' → is_Some (t !! x) → is_Some (t' !! x).
Proof.
  intros Hs [row Hx]. pose proof (Hs x) as Hsx. rewrite Hx in Hsx.
  destruct (t' !! x); [by eexists | done].
Qed.

Lemma states_owned_same_keys w w' :
  same_keys (flow_run w) (flow_run w') →
  flow_run_state w' = flow_run_state w →
  states_owned w → states_owned w'.
Proof.
  intros Hk Hst Hown sid s Hs. rewrite Hst in Hs.
  eapply same_keys_lookup_is_Some; [exact Hk|]. by eapply Hown.
Qed.

(** X3. The materializer keeps the ownership of states: if every stored
    state belongs to a stored run before a call, the same holds after it,
    whether the call returns or raises. *)
Theorem materializer_keeps_states_owned
    (runs : list schemas.FlowRun.t) (w : World) :
  states_owned w →
  states_owned (world_of (_insert_scheduled_flow_runs runs w)).
Proof.
  intros Hown. apply insert_scheduled_invariant; [done|..].
  - intros ins w0 H0 sid s Hs.
    pose proof (execute_insert_flow_runs_post ins runs w0) as Hp.
    assert (flow_run_state
              (world_of (execute_insert_flow_runs ins runs w0))
            = flow_run_state w0) as Hst.
    { rewrite (bip_world _ _ _ Hp). done. }
    rewrite Hst in Hs. destruct (H0 sid s Hs) as [row Hrow].
    exists row. eapply lookup_weaken; [exact Hrow | apply (bip_grows _ _ _ Hp)].
  - intros w1 H1 sid s Hs.
    pose proof (execute_insert_flow_run_states_post
                  (state_values <$> new_runs runs w1) w1) as Hp.
    assert (flow_run (world_of (execute_insert_flow_run_states
                                  (state_values <$> new_runs runs w1) w1))
            = flow_run w1) as Hfr.
    { rewrite (sip_world _ _ _ Hp). done. }
    rewrite Hfr.
    destruct (flow_run_state w1 !! sid) as [s1|] eqn:Hs1.
    + eapply lookup_weaken in Hs1 as Hs1'; [|apply (sip_grows _ _ _ Hp)].
      assert (s = s1) as -> by congruence. by eapply H1.
    + apply (sip_new _ _ _ Hp) in Hs; [|done].
      apply list_elem_of_fmap in Hs as (r & Heq & Hr).
      injection Heq as -> ->. simpl.
      apply list_elem_of_filter in Hr as [Hin _].
      by apply elem_of_inserted_rows in Hin as (_ & ? & _).
  - intros ids w2 H2.
    eapply states_owned_same_keys; [apply update_from_same_keys | done | done].
  - intros ids w2 H2.
    eapply states_owned_same_keys;
      [apply update_correlated_subquery_same_keys | done | done].
Qed.

Lemma materializer_keeps_states_owned_witness :
  states_owned (stored_world "sqlite")
  ∧ states_owned (world_of (_insert_scheduled_flow_runs
                              [next_candidate] (stored_world "sqlite"))).
Proof.
  assert (states_owned (stored_world "sqlite")) as Hown.
  { intros sid s Hs. simpl in Hs.
    apply lookup_singleton_Some in Hs as [_ <-]. by eexists. }
  split; [exact Hown|].
  apply (materializer_keeps_states_owned [next_candidate]
           (stored_world "sqlite")).
  exact Hown.
Defined.

(** ** What a returning materializer call has done *)

(** After the states of the new runs are stored, the linking statement gives
    every new run the state of a new candidate with its id. *)
Lemma link_states_links runs w1 w2 r :
  execute_insert_flow_run_states (state_values <$> new_runs runs w1) w1
  = Ok tt w2 →
  r ∈ new_runs runs w1 →
  ∃ row1 r',
    flow_run w1 !! schemas.FlowRun.id r = Some row1
    ∧ r' ∈ new_runs runs w1
    ∧ schemas.FlowRun.id r' = schemas.FlowRun.id r
    ∧ flow_run (world_of (link_states
                            (state_values <$> new_runs runs w1).*1 w2))
        !! schemas.FlowRun.id r
      = Some (orm.FlowRun.set_state_id
                (Some (schemas.State.id (schemas.FlowRun.state r'))) row1)
    ∧ flow_run_state w2 !! schemas.State.id (schemas.FlowRun.state r')
      = Some (state_values r').2
    ∧ flow_run_state w1 !! schemas.State.id (schemas.FlowRun.state r') = None.
Proof.
  intros Hins Hr.
  pose proof (execute_insert_flow_run_states_post
                (state_values <$> new_runs runs w1) w1) as Hsp.
  rewrite Hins in Hsp. simpl in Hsp.
  pose proof (execute_insert_flow_run_states_stored _ _ _ Hins) as Hstored.
  assert (flow_run w2 = flow_run w1) as Hfr2.
  { rewrite (sip_world _ _ _ Hsp). done. }
  assert (is_Some (flow_run w1 !! schemas.FlowRun.id r)) as [row1 Hx1].
  { apply list_elem_of_filter in Hr as [Hin _].
    by apply elem_of_inserted_rows in Hin as (_ & ? & _). }
  set (ids := (state_values <$> new_runs runs w1).*1) in *.
  assert (∃ sid, head (new_states_of (flow_run_state w2) ids
                                     (schemas.FlowRun.id r)) = Some sid)
    as [sid Hhead].
  { assert ((state_values r).1 ∈ new_states_of (flow_run_state w2) ids
                                   (schemas.FlowRun.id r)) as Hmem.
    { apply list_elem_of_filter. split.
      - destruct (Hstored (state_values r).1 (state_values r).2) as [-> _];
          [|done].
        rewrite <- surjective_pairing. by apply list_elem_of_fmap_2.
      - unfold ids. apply list_elem_of_fmap_2. by apply list_elem_of_fmap_2. }
    destruct (new_states_of _ _ _) as [|sid l]; [by apply elem_of_nil in Hmem|].
    by exists sid. }
  pose proof (head_Some_elem_of _ _ Hhead) as Hsid.
  apply list_elem_of_filter in Hsid as [Hsx Hsid].
  unfold ids in Hsid.
  apply list_elem_of_fmap in Hsid as ([sid' s'] & -> & Hsid). simpl in *.
  destruct (Hstored sid' s' Hsid) as [Hs2 Hs1].
  apply list_elem_of_fmap in Hsid as (r' & Heq & Hr').
  injection Heq as -> ->.
  rewrite Hs2 in Hsx. simpl in Hsx. injection Hsx as Hidr'.
  exists row1, r'. split; [done|]. split; [done|]. split; [done|].
  split; [|done].
  unfold link_states. case_decide.
  - rewrite update_from_lookup, Hhead, Hfr2, Hx1. done.
  - rewrite update_correlated_subquery_lookup, Hhead, Hfr2, Hx1. done.
Qed.

(** X4. Every run a materializer call returns is, after the call, a stored
    run whose [state_id] is the id of a state the call created: the state of
    a returned candidate with the same run id, stored with that run as its
    owner. *)
Theorem returned_runs_are_linked
    (runs : list schemas.FlowRun.t) (w : World)
    (res : list schemas.FlowRun.t) (w' : World) (r : schemas.FlowRun.t) :
  _insert_scheduled_flow_runs runs w = Ok res w' →
  r ∈ res →
  ∃ row r',
    flow_run w' !! schemas.FlowRun.id r = Some row
    ∧ r' ∈ res
    ∧ schemas.FlowRun.id r' = schemas.FlowRun.id r
    ∧ orm.FlowRun.state_id row
      = Some (schemas.State.id (schemas.FlowRun.state r'))
    ∧ flow_run_state w' !! schemas.State.id (schemas.FlowRun.state r')
      = Some (orm.FlowRunState.mk (schemas.FlowRun.id r)
                (schemas.State.type (schemas.FlowRun.state r'))
                (schemas.State.message (schemas.FlowRun.state r'))
                (schemas.State.scheduled_time (schemas.FlowRun.state r')))
    ∧ flow_run_state w !! schemas.State.id (schemas.FlowRun.state r') = None.
Proof.
  intros Hrun Hr.
  apply insert_scheduled_Ok in Hrun as (ins & w1 & Hex & -> & Hlink).
  pose proof (execute_insert_flow_runs_post ins runs w) as Hp.
  rewrite Hex in Hp. simpl in Hp.
  assert (flow_run_state w1 = flow_run_state w) as Hst1.
  { rewrite (bip_world _ _ _ Hp). done. }
  destruct Hlink as [(Hnil & ->) | (_ & w2 & Hins & ->)].
  { rewrite Hnil in Hr. by apply elem_of_nil in Hr. }
  destruct (link_states_links _ _ _ _ Hins Hr)
    as (row1 & r' & Hx1 & Hr' & Hid & Hrow & Hs2 & Hs1).
  eexists _, r'. split; [exact Hrow|]. split; [done|]. split; [done|].
  split; [done|]. rewrite link_states_flow_run_state.
  split; [|by rewrite <- Hst1].
  rewrite Hs2. unfold state_values. simpl. by rewrite Hid.
Qed.

Lemma returned_runs_are_linked_witness :
  ∃ row r',
    flow_run (world_of (_insert_scheduled_flow_runs
                          [next_candidate] (stored_world "sqlite")))
      !! 3%N = Some row
    ∧ r' ∈ [next_candidate]
    ∧ schemas.FlowRun.id r' = 3%N
    ∧ orm.FlowRun.state_id row
      = Some (schemas.State.id (schemas.FlowRun.state r'))
    ∧ flow_run_state (world_of (_insert_scheduled_flow_runs
                                  [next_candidate] (stored_world "sqlite")))
        !! schemas.State.id (schemas.FlowRun.state r')
      = Some (orm.FlowRunState.mk 3%N
                (schemas.State.type (schemas.FlowRun.state r'))
                (schemas.State.message (schemas.FlowRun.state r'))
                (schemas.State.scheduled_time (schemas.FlowRun.state r')))
    ∧ flow_run_state (stored_world "sqlite")
        !! schemas.State.id (schemas.FlowRun.state r') = None.
Proof.
  apply (returned_runs_are_linked [next_candidate] (stored_world "sqlite")
           [next_candidate]
           (world_of (_insert_scheduled_flow_runs
                        [next_candidate] (stored_world "sqlite")))
           next_candidate).
  - vm_compute. reflexivity.
  - left.
Defined.

Lemma execute_insert_flow_run_states_size rows w w' :
  execute_insert_flow_run_states rows w = Ok tt w' →
  size (flow_run_state w') = (size (flow_run_state w) + length rows)%nat.
Proof.
  revert w. induction rows as [|[sid0 s0] rows IH]; intros w Hex; simpl in Hex.
  - injection Hex as <-. simpl. lia.
  - apply bind_Ok in Hex as ([] & w1 & H1 & H2).
    unfold insert_flow_run_state_row in H1. simpl in H1.
    destruct (flow_run_state w !! sid0) eqn:Hsid0; [discriminate|].
    injection H1 as <-. rewrite (IH _ H2). simpl.
    rewrite map_size_insert_None by done. lia.
Qed.

(** X5. A returning materializer call creates exactly one state per run it
    returns: table [flow_run_state] has as many more rows as the result has
    runs. *)
Theorem one_state_per_returned_run
    (runs : list schemas.FlowRun.t) (w : World)
    (res : list schemas.FlowRun.t) (w' : World) :
  _insert_scheduled_flow_runs runs w = Ok res w' →
  size (flow_run_state w') = (size (flow_run_state w) + length res)%nat.
Proof.
  intros Hrun.
  apply insert_scheduled_Ok in Hrun as (ins & w1 & Hex & -> & Hlink).
  pose proof (execute_insert_flow_runs_post ins runs w) as Hp.
  rewrite Hex in Hp. simpl in Hp.
  assert (flow_run_state w1 = flow_run_state w) as Hst1.
  { rewrite (bip_world _ _ _ Hp). done. }
  destruct Hlink as [(-> & ->) | (_ & w2 & Hins & ->)].
  - rewrite Hst1. simpl. lia.
  - rewrite link_states_flow_run_state.
    rewrite (execute_insert_flow_run_states_size _ _ _ Hins).
    by rewrite Hst1, length_fmap.
Qed.

Lemma one_state_per_returned_run_witness :
  size (flow_run_state
          (world_of (_insert_scheduled_flow_runs
                       [repeated_candidate; next_candidate]
                       (stored_world "sqlite"))))
  = (size (flow_run_state (stored_world "sqlite"))
     + length [next_candidate])%nat.
Proof.
  apply (one_state_per_returned_run [repeated_candidate; next_candidate]
           (stored_world "sqlite") [next_candidate]).
  vm_compute. reflexivity.
Defined.

(** X6. A materializer call that returns no run has linked nothing: no state
    was created, and every stored run is found exactly as it was, its
    [state_id] included. *)
Theorem nothing_returned_nothing_linked
    (runs : list schemas.FlowRun.t) (w w' : World) :
  _insert_scheduled_flow_runs runs w = Ok [] w' →
  flow_run_state w' = flow_run_state w
  ∧ flow_run w ⊆ flow_run w'.
Proof.
  intros Hrun.
  apply insert_scheduled_Ok in Hrun as (ins & w1 & Hex & Hres & Hlink).
  pose proof (execute_insert_flow_runs_post ins runs w) as Hp.
  rewrite Hex in Hp. simpl in Hp.
  destruct Hlink as [(_ & ->) | (Hne & _)]; [|by rewrite <- Hres in Hne].
  split; [|apply (bip_grows _ _ _ Hp)].
  rewrite (bip_world _ _ _ Hp). done.
Qed.

Lemma nothing_returned_nothing_linked_witness :
  flow_run_state (world_of (_insert_scheduled_flow_runs
                              [repeated_candidate] (stored_world "sqlite")))
  = flow_run_state (stored_world "sqlite")
  ∧ flow_run (stored_world "sqlite")
    ⊆ flow_run (world_of (_insert_scheduled_flow_runs
                            [repeated_candidate] (stored_world "sqlite"))).
Proof.
  apply (nothing_returned_nothing_linked [repeated_candidate]
           (stored_world "sqlite")
           (world_of (_insert_scheduled_flow_runs
                        [repeated_candidate] (stored_world "sqlite")))).
  vm_compute. reflexivity.
Defined.

(** ** The two linking statements and the runs outside the new set *)

Lemma insert_scheduled_settings runs w ins w1 w2 rows :
  execute_insert_flow_runs ins runs w = Ok tt w1 →
  execute_insert_flow_run_states rows w1 = Ok tt w2 →
  settings_dialect w2 = settings_dialect w
  ∧ flow_run w2 = flow_run w1
  ∧ flow_run w ⊆ flow_run w1.
Proof.
  intros Hex Hins.
  pose proof (execute_insert_flow_runs_post ins runs w) as Hp.
  rewrite Hex in Hp. simpl in Hp.
  pose proof (execute_insert_flow_run_states_post rows w1) as Hsp.
  rewrite Hins in Hsp. simpl in Hsp.
  split; [|split; [|apply (bip_grows _ _ _ Hp)]].
  - rewrite (sip_world _ _ _ Hsp). simpl. rewrite (bip_world _ _ _ Hp). done.
  - rewrite (sip_world _ _ _ Hsp). done.
Qed.

(** No new state belongs to a run that is not new. *)
Lemma new_states_of_outside runs w1 w2 x :
  execute_insert_flow_run_states (state_values <$> new_runs runs w1) w1
  = Ok tt w2 →
  x ∉ schemas.FlowRun.id <$> new_runs runs w1 →
  new_states_of (flow_run_state w2) (state_values <$> new_runs runs w1).*1 x
  = [].
Proof.
  intros Hins Hx. apply elem_of_nil_inv. intros sid Hsid.
  apply list_elem_of_filter in Hsid as [Hown Hsid].
  apply list_elem_of_fmap in Hsid as ([sid' s'] & -> & Hsid). simpl in *.
  destruct (execute_insert_flow_run_states_stored _ _ _ Hins sid' s' Hsid)
    as [Hs2 _].
  apply list_elem_of_fmap in Hsid as (r & Heq & Hr).
  injection Heq as -> ->. rewrite Hs2 in Hown. simpl in Hown.
  injection Hown as <-. apply Hx. by apply list_elem_of_fmap_2.
Qed.

(** X7. With the postgresql statement, a returning materializer call leaves
    every stored run whose id is not the id of a returned run exactly as it
    was. *)
Theorem postgresql_linking_leaves_other_runs
    (runs : list schemas.FlowRun.t) (w : World)
    (res : list schemas.FlowRun.t) (w' : World)
    (x : UUID) (row : orm.FlowRun.t) :
  settings_dialect w = "postgresql" →
  _insert_scheduled_flow_runs runs w = Ok res w' →
  flow_run w !! x = Some row →
  x ∉ schemas.FlowRun.id <$> res →
  flow_run w' !! x = Some row.
Proof.
  intros Hd Hrun Hrow Hx.
  apply insert_scheduled_Ok in Hrun as (ins & w1 & Hex & -> & Hlink).
  destruct Hlink as [(_ & ->) | (_ & w2 & Hins & ->)].
  - pose proof (execute_insert_flow_runs_post ins runs w) as Hp.
    rewrite Hex in Hp. simpl in Hp.
    eapply lookup_weaken; [exact Hrow | apply (bip_grows _ _ _ Hp)].
  - destruct (insert_scheduled_settings _ _ _ _ _ _ Hex Hins)
      as (Hset & Hfr & Hsub).
    unfold link_states. rewrite decide_True by congruence.
    rewrite update_from_lookup, (new_states_of_outside _ _ _ _ Hins Hx), Hfr.
    simpl. by rewrite (lookup_weaken _ _ _ _ Hrow Hsub).
Qed.

Lemma postgresql_linking_leaves_other_runs_witness :
  flow_run (world_of (_insert_scheduled_flow_runs
                        [next_candidate] (stored_world "postgresql")))
    !! 1%N = Some stored_run.
Proof.
  apply (postgresql_linking_leaves_other_runs [next_candidate]
           (stored_world "postgresql") [next_candidate]).
  - reflexivity.
  - vm_compute. reflexivity.
  - reflexivity.
  - vm_compute. intros Hin. apply list_elem_of_singleton in Hin. discriminate.
Defined.

(** X8. With the other statement (the one used for sqlite), a materializer
    call that returns at least one run sets to NULL the [state_id] of every
    stored run whose id is not the id of a returned run: the UPDATE has no
    WHERE clause, and the subquery selects no state for such a run. *)
Theorem subquery_linking_unlinks_other_runs
    (runs : list schemas.FlowRun.t) (w : World)
    (res : list schemas.FlowRun.t) (w' : World)
    (x : UUID) (row : orm.FlowRun.t) :
  settings_dialect w ≠ "postgresql" →
  _insert_scheduled_flow_runs runs w = Ok res w' →
  res ≠ [] →
  flow_run w !! x = Some row →
  x ∉ schemas.FlowRun.id <$> res →
  flow_run w' !! x = Some (orm.FlowRun.set_state_id None row).
Proof.
  intros Hd Hrun Hne Hrow Hx.
  apply insert_scheduled_Ok in Hrun as (ins & w1 & Hex & -> & Hlink).
  destruct Hlink as [(Hnil & _) | (_ & w2 & Hins & ->)]; [done|].
  destruct (insert_scheduled_settings _ _ _ _ _ _ Hex Hins)
    as (Hset & Hfr & Hsub).
  unfold link_states. rewrite decide_False by congruence.
  rewrite update_correlated_subquery_lookup,
    (new_states_of_outside _ _ _ _ Hins Hx), Hfr.
  simpl. by rewrite (lookup_weaken _ _ _ _ Hrow Hsub).
Qed.

Lemma subquery_linking_unlinks_other_runs_witness :
  orm.FlowRun.state_id stored_run = Some 2%N
  ∧ flow_run (world_of (_insert_scheduled_flow_runs
                          [next_candidate] (stored_world "sqlite")))
      !! 1%N = Some (orm.FlowRun.set_state_id None stored_run).
Proof.
  split; [reflexivity|].
  apply (subquery_linking_unlinks_other_runs [next_candidate]
           (stored_world "sqlite") [next_candidate]).
  - simpl. discriminate.
  - vm_compute. reflexivity.
  - discriminate.
  - reflexivity.
  - vm_compute. intros Hin. apply list_elem_of_singleton in Hin. discriminate.
Defined.

(** ** Candidates whose key is stored *)

Lemma execute_insert_flow_runs_new_key ins rows w x row :
  flow_run (world_of (execute_insert_flow_runs ins rows w)) !! x = Some row →
  flow_run w !! x = None →
  ∃ r, r ∈ rows ∧ x = schemas.FlowRun.id r
       ∧ ¬ key_present (flow_run w) (schemas.FlowRun.flow_id r)
                       (schemas.FlowRun.idempotency_key r).
Proof.
  revert w. induction rows as [|r0 rows IH]; intros w Hx Hnone; simpl in Hx.
  { congruence. }
  unfold bind in Hx.
  destruct (insert_flow_run_row_cases r0 w)
    as [(_ & Heq) | [(_ & _ & Heq) | (Hnk & Hid & Heq)]];
    rewrite Heq in Hx; simpl in Hx.
  - destruct (IH _ Hx Hnone) as (r & Hr & ? & ?). exists r. by split; [right|].
  - congruence.
  - destruct (decide (x = schemas.FlowRun.id r0)) as [->|Hne].
    + exists r0. split; [left | done].
    + destruct (IH _ Hx) as (r & Hr & Hxr & Hnkr).
      { simpl. by rewrite lookup_insert_ne. }
      exists r. split; [by right|]. split; [done|].
      intros Hk. apply Hnkr. eapply key_present_mono; [|exact Hk].
      simpl. by apply insert_subseteq.
Qed.

Lemma NoDup_fmap_eq {A B} (f : A → B) (l : list A) x y :
  NoDup (f <$> l) → x ∈ l → y ∈ l → f x = f y → x = y.
Proof.
  induction l as [|a l IH]; intros Hnd Hx Hy Hf.
  { by apply elem_of_nil in Hx. }
  rewrite fmap_cons in Hnd. apply NoDup_cons in Hnd as [Ha Hnd].
  apply elem_of_cons in Hx as [->|Hx]; apply elem_of_cons in Hy as [->|Hy].
  - done.
  - exfalso. apply Ha. rewrite Hf. by apply list_elem_of_fmap_2.
  - exfalso. apply Ha. rewrite <- Hf. by apply list_elem_of_fmap_2.
  - by apply IH.
Qed.

(** X9. A candidate whose [(flow_id, idempotency_key)] is stored before the
    call is dropped from the result, provided its id is not the id of a
    stored run and the candidates have pairwise distinct ids. *)
Theorem stored_key_is_not_returned
    (runs : list schemas.FlowRun.t) (w : World)
    (res : list schemas.FlowRun.t) (w' : World) (r : schemas.FlowRun.t) :
  _insert_scheduled_flow_runs runs w = Ok res w' →
  NoDup (schemas.FlowRun.id <$> runs) →
  r ∈ runs →
  flow_run w !! schemas.FlowRun.id r = None →
  key_present (flow_run w) (schemas.FlowRun.flow_id r)
              (schemas.FlowRun.idempotency_key r) →
  (r ∉ res)
  ∧ flow_run w' !! schemas.FlowRun.id r = None.
Proof.
  intros Hrun Hnd Hr Hid Hk.
  pose proof (fun H => insert_scheduled_rows _ _ _ _ (schemas.FlowRun.id r)
                         Hrun H) as Hrows.
  apply insert_scheduled_Ok in Hrun as (ins & w1 & Hex & -> & Hlink).
  assert (flow_run w1 !! schemas.FlowRun.id r = None) as Hnone1.
  { apply eq_None_not_Some. intros [row Hrow].
    pose proof (execute_insert_flow_runs_new_key ins runs w
                  (schemas.FlowRun.id r) row) as Hnew.
    rewrite Hex in Hnew. simpl in Hnew.
    destruct (Hnew Hrow Hid) as (r' & Hr' & Hidr' & Hnk).
    assert (r = r') as <-
        by exact (NoDup_fmap_eq schemas.FlowRun.id runs r r' Hnd Hr Hr' Hidr').
    done. }
  split.
  - intros Hin. apply list_elem_of_filter in Hin as [Hin _].
    apply elem_of_inserted_rows in Hin as (_ & [row Hrow] & _). congruence.
  - destruct Hlink as [(_ & ->) | (_ & w2 & Hins & ->)]; [done|].
    eapply same_keys_lookup_None; [apply link_states_same_keys|].
    pose proof (execute_insert_flow_run_states_post
                  (state_values <$> new_runs runs w1) w1) as Hsp.
    rewrite Hins in Hsp. simpl in Hsp.
    rewrite (sip_world _ _ _ Hsp). done.
Qed.

Lemma stored_key_is_not_returned_witness :
  (repeated_candidate ∉ [next_candidate])
  ∧ flow_run (world_of (_insert_scheduled_flow_runs
                          [repeated_candidate; next_candidate]
                          (stored_world "sqlite")))
      !! 9%N = None.
Proof.
  apply (stored_key_is_not_returned [repeated_candidate; next_candidate]
           (stored_world "sqlite")).
  - vm_compute. reflexivity.
  - simpl. apply NoDup_cons_2; [|apply NoDup_singleton].
    rewrite list_elem_of_singleton. discriminate.
  - left.
  - reflexivity.
  - apply key_present_lookup. exists 1%N, stored_run. by split_and!.
Defined.

(** ** A batch of new candidates *)




Lemma filter_all {A} (P : A → Prop) `{∀ x, Decision (P x)} (l : list A) :
  (∀ x, x ∈ l → P x) → filter P l = l.
Proof.
  induction l as [|a l IH]; intros Hall; [done|].
  rewrite filter_cons_True by (apply Hall; left).
  f_equal. apply IH. intros x Hx. apply Hall. by right.
Qed.





(** ** The generator: what it leaves alone and what it builds *)

Section GeneratorExtras.
Context `{Library}.

(** X11. The generator does not write to the store: whether it returns or
    raises, the two tables and the deployments are as before. It draws two
    identifiers per candidate it returns, and none when it raises. *)
Theorem generator_does_not_write
    (dep_id : UUID) (start_time end_time : option datetime)
    (max_runs : option Z) (w : World) :
  let r := _generate_scheduled_flow_runs dep_id start_time end_time max_runs w
  in
  flow_run (world_of r) = flow_run w
  ∧ flow_run_state (world_of r) = flow_run_state w
  ∧ deployment (world_of r) = deployment w
  ∧ uuid_drawn (world_of r)
    = (uuid_drawn w
       + 2 * match r with Ok runs _ => length runs | Raise _ _ => 0 end)%nat.
Proof.
  cbv zeta.
  rewrite (generate_closed _ _ _ _ _ _ _ _ _
             (resolve_window_closed start_time end_time max_runs w)).
  destruct (deployment w !! dep_id) as [dep|]; simpl.
  - by rewrite length_candidates.
  - split_and!; [done..|]. lia.
Qed.

Lemma candidates_lookup source dep dep_id k l i r :
  candidates source dep dep_id k l !! i = Some r →
  ∃ sd, l !! i = Some sd ∧ r = candidate source dep dep_id (k + 2 * i) sd.
Proof.
  revert k i. induction l as [|sd l IH]; intros k i Hi; [done|].
  destruct i as [|i]; simpl in Hi.
  - injection Hi as <-. exists sd. split; [done|]. f_equal. lia.
  - destruct (IH _ _ Hi) as (sd' & Hsd' & ->). exists sd'. split; [done|].
    f_equal. lia.
Qed.

(** X12. When [uuid4()] never returns the same value twice, the candidates of
    one generator call have pairwise distinct run ids and pairwise distinct
    state ids, no run id is a state id, and the call has drawn two
    identifiers per candidate. *)
Theorem generated_ids_are_distinct
    (dep_id : UUID) (start_time end_time : option datetime)
    (max_runs : option Z) (w : World)
    (runs : list schemas.FlowRun.t) (w' : World) :
  (∀ i j, uuid_source w i = uuid_source w j → i = j) →
  _generate_scheduled_flow_runs dep_id start_time end_time max_runs w
  = Ok runs w' →
  NoDup (schemas.FlowRun.id <$> runs)
  ∧ NoDup ((fun r => schemas.State.id (schemas.FlowRun.state r)) <$> runs)
  ∧ (∀ r r', r ∈ runs → r' ∈ runs →
             schemas.FlowRun.id r
             ≠ schemas.State.id (schemas.FlowRun.state r'))
  ∧ uuid_drawn w' = (uuid_drawn w + 2 * length runs)%nat.
Proof.
  intros Hinj Hgen.
  rewrite (generate_closed _ _ _ _ _ _ _ _ _
             (resolve_window_closed start_time end_time max_runs w)) in Hgen.
  destruct (deployment w !! dep_id) as [dep|]; [|discriminate].
  injection Hgen as <- <-.
  split_and!.
  - apply NoDup_alt. intros i j x Hi Hj.
    apply list_lookup_fmap_Some in Hi as (ri & -> & Hi).
    apply list_lookup_fmap_Some in Hj as (rj & Heq & Hj).
    apply candidates_lookup in Hi as (sdi & _ & ->).
    apply candidates_lookup in Hj as (sdj & _ & ->).
    simpl in Heq. apply Hinj in Heq. lia.
  - apply NoDup_alt. intros i j x Hi Hj.
    apply list_lookup_fmap_Some in Hi as (ri & -> & Hi).
    apply list_lookup_fmap_Some in Hj as (rj & Heq & Hj).
    apply candidates_lookup in Hi as (sdi & _ & ->).
    apply candidates_lookup in Hj as (sdj & _ & ->).
    simpl in Heq. apply Hinj in Heq. lia.
  - intros r r' Hr Hr' Heq.
    apply list_elem_of_lookup in Hr as (i & Hi).
    apply list_elem_of_lookup in Hr' as (j & Hj).
    apply candidates_lookup in Hi as (sdi & _ & ->).
    apply candidates_lookup in Hj as (sdj & _ & ->).
    simpl in Heq. apply Hinj in Heq. lia.
  - simpl. by rewrite length_candidates.
Qed.

Lemma candidates_elem_of source dep dep_id k l r :
  r ∈ candidates source dep dep_id k l →
  ∃ sd j, sd ∈ l ∧ r = candidate source dep dep_id j sd.
Proof.
  intros (i & Hi)%list_elem_of_lookup.
  apply candidates_lookup in Hi as (sd & Hsd & ->).
  exists sd, (k + 2 * i)%nat. split; [|done].
  apply list_elem_of_lookup. by exists i.
Qed.

Lemma elem_of_occurrences sd schedules n st et :
  sd ∈ occurrences schedules n st et ↔
  sd.1 ∈ schedules ∧ sd.2 ∈ orm.Schedule.clock_get_dates sd.1 n st et.
Proof.
  unfold occurrences. rewrite list_elem_of_bind. split.
  - intros (s & Hd & Hs). apply list_elem_of_fmap in Hd as (d & -> & Hd).
    done.
  - intros [Hs Hd]. exists sd.1. split; [|done].
    apply list_elem_of_fmap. exists sd.2. split; [|done].
    by destruct sd.
Qed.

(** X13. Every candidate the generator returns is built from a schedule of
    the deployment and one of the dates its clock returned for the window:
    it carries the flow of the deployment, the requested deployment id, the
    parameters and the id of the schedule, the key of line 151, the tag
    "auto-scheduled", and a SCHEDULED state for that date. *)
Theorem generated_candidates_are_occurrences
    (dep_id : UUID) (start_time end_time : option datetime)
    (max_runs : option Z) (w : World)
    (runs : list schemas.FlowRun.t) (w' : World) (r : schemas.FlowRun.t) :
  _generate_scheduled_flow_runs dep_id start_time end_time max_runs w
  = Ok runs w' →
  r ∈ runs →
  ∃ dep n st et w0 s d,
    deployment w !! dep_id = Some dep
    ∧ resolve_window start_time end_time max_runs w = Ok (n, st, et) w0
    ∧ s ∈ orm.Deployment.schedules dep
    ∧ d ∈ orm.Schedule.clock_get_dates s n st et
    ∧ schemas.FlowRun.flow_id r = orm.Deployment.flow_id dep
    ∧ schemas.FlowRun.deployment_id r = dep_id
    ∧ schemas.FlowRun.parameters r = orm.Schedule.parameters s
    ∧ schemas.FlowRun.idempotency_key r
      = scheduled_key (orm.Schedule.id s) d
    ∧ schemas.FlowRun.tags r = ["auto-scheduled"]
    ∧ schemas.FlowRun.flow_run_details r
      = schemas.FlowRunDetails.mk (Some (orm.Schedule.id s)) true
    ∧ schemas.State.type (schemas.FlowRun.state r) = SCHEDULED
    ∧ schemas.State.message (schemas.FlowRun.state r) = "Flow run scheduled"
    ∧ schemas.State.scheduled_time (schemas.FlowRun.state r) = Some d.
Proof.
  intros Hgen Hr.
  pose proof (resolve_window_closed start_time end_time max_runs w) as Hw.
  rewrite (generate_closed _ _ _ _ _ _ _ _ _ Hw) in Hgen.
  destruct (deployment w !! dep_id) as [dep|] eqn:Hdep; [|discriminate].
  injection Hgen as <- <-.
  apply candidates_elem_of in Hr as ([s d] & j & Hsd & ->).
  apply elem_of_occurrences in Hsd as [Hs Hd]. simpl in *.
  eexists dep, _, _, _, _, s, d. split; [done|]. split; [exact Hw|].
  by split_and!.
Qed.

End GeneratorExtras.

Lemma generated_ids_are_distinct_witness :
  ∃ runs w',
    sample_candidates = Ok runs w'
    ∧ NoDup (schemas.FlowRun.id <$> runs)
    ∧ NoDup ((fun r => schemas.State.id (schemas.FlowRun.state r)) <$> runs)
    ∧ (∀ r r', r ∈ runs → r' ∈ runs →
               schemas.FlowRun.id r
               ≠ schemas.State.id (schemas.FlowRun.state r'))
    ∧ uuid_drawn w' = (0 + 2 * length runs)%nat.
Proof.
  eexists _, _. split; [vm_compute; reflexivity|].
  eapply (@generated_ids_are_distinct sample_library 5%N
            (Some 10%Z) (Some 20%Z) (Some 2%Z) (sample_world "sqlite")).
  - simpl. intros i j Hij. lia.
  - vm_compute. reflexivity.
Defined.

Lemma generated_candidates_are_occurrences_witness :
  ∃ runs w' r dep n st et w0 s d,
    sample_candidates = Ok runs w'
    ∧ r ∈ runs
    ∧ deployment (sample_world "sqlite") !! 5%N = Some dep
    ∧ @resolve_window sample_library (Some 10%Z) (Some 20%Z) (Some 2%Z)
                      (sample_world "sqlite") = Ok (n, st, et) w0
    ∧ s ∈ orm.Deployment.schedules dep
    ∧ d ∈ orm.Schedule.clock_get_dates s n st et
    ∧ schemas.FlowRun.flow_id r = orm.Deployment.flow_id dep
    ∧ schemas.FlowRun.deployment_id r = 5%N
    ∧ schemas.FlowRun.parameters r = orm.Schedule.parameters s
    ∧ schemas.FlowRun.idempotency_key r
      = @scheduled_key sample_library (orm.Schedule.id s) d
    ∧ schemas.FlowRun.tags r = ["auto-scheduled"]
    ∧ schemas.FlowRun.flow_run_details r
      = schemas.FlowRunDetails.mk (Some (orm.Schedule.id s)) true
    ∧ schemas.State.type (schemas.FlowRun.state r) = SCHEDULED
    ∧ schemas.State.message (schemas.FlowRun.state r) = "Flow run scheduled"
    ∧ schemas.State.scheduled_time (schemas.FlowRun.state r) = Some d.
Proof.
  pose (r0 := @candidate sample_library (fun k => N.of_nat (100 + k))
                sample_deployment 5%N 0
                (orm.Schedule.mk 1%N every_instant ∅, 10%Z)).
  assert (∃ rest w',
            sample_candidates = Ok (r0 :: rest) w') as (rest & w' & Heq).
  { eexists _, _. vm_compute. reflexivity. }
  destruct (@generated_candidates_are_occurrences sample_library 5%N
              (Some 10%Z) (Some 20%Z) (Some 2%Z) (sample_world "sqlite")
              (r0 :: rest) w' r0 Heq)
    as (dep & n & st & et & w0 & s & d & Hrest); [left|].
  exists (r0 :: rest), w', r0, dep, n, st, et, w0, s, d.
  split; [exact Heq|]. split; [left | exact Hrest].
Defined.

(** ** Idempotency keys *)

Lemma has_char_cons c a s :
  has_char c (String a s) = false ↔ a ≠ c ∧ has_char c s = false.
Proof.
  simpl. case_decide as Hac; split.
  - discriminate.
  - intros [Hne _]. done.
  - intros Hs. done.
  - intros [_ Hs]. done.
Qed.

(** A string without a space, a space, and a rest: the parts are determined
    by the whole. *)
Lemma append_space_inj a a' b b' :
  has_char " "%char a = false → has_char " "%char a' = false →
  a +:+ " " +:+ b = a' +:+ " " +:+ b' → a = a' ∧ b = b'.
Proof.
  revert a'. induction a as [|c a IH]; intros [|c' a'] Ha Ha' Heq;
    simpl in Heq.
  - by injection Heq.
  - injection Heq as <- _. apply has_char_cons in Ha' as [? _]. done.
  - injection Heq as -> _. apply has_char_cons in Ha as [? _]. done.
  - injection Heq as -> Heq.
    apply has_char_cons in Ha as [_ Ha]. apply has_char_cons in Ha' as [_ Ha'].
    destruct (IH a' Ha Ha' Heq) as [-> ->]. done.
Qed.

Lemma pretty_N_go_no_space x s :
  has_char " "%char s = false → has_char " "%char (pretty_N_go x s) = false.
Proof.
  revert s. induction (N.lt_wf_0 x) as [x _ IH]; intros s Hs.
  assert (x = 0 ∨ 0 < x)%N as [->|?] by lia.
  - by rewrite pretty_N_go_0.
  - rewrite pretty_N_go_step by done. apply IH.
    { by apply N.div_lt. }
    apply has_char_cons. split; [|done].
    unfold pretty_N_char. by repeat case_match.
Qed.

Lemma pretty_N_no_space (x : N) : has_char " "%char (pretty x) = false.
Proof.
  unfold pretty, pretty_N. case_decide; [done|].
  by apply pretty_N_go_no_space.
Qed.

Section KeyFacts.
Context `{Library}.

Lemma scheduled_key_inj a a' d d' :
  Inj (=) (=) str_uuid → Inj (=) (=) str_datetime →
  (∀ u, has_char " "%char (str_uuid u) = false) →
  scheduled_key a d = scheduled_key a' d' → a = a' ∧ d = d'.
Proof.
  intros Hu Hd Hns Heq. unfold scheduled_key in Heq. simpl in Heq.
  injection Heq as Heq.
  apply append_space_inj in Heq as [Ha Hb]; [|apply Hns..].
  split; [by apply Hu | by apply Hd].
Qed.

Lemma candidate_conflict_key source dep dep_id j sd :
  conflict_key (candidate source dep dep_id j sd)
  = (orm.Deployment.flow_id dep, scheduled_key (orm.Schedule.id sd.1) sd.2).
Proof. done. Qed.

Lemma candidate_provenance source dep dep_id j sd :
  provenance (candidate source dep dep_id j sd)
  = (Some (orm.Schedule.id sd.1), Some sd.2).
Proof. done. Qed.

(** X14. When [str()] is injective on UUIDs and on datetimes and the string
    of a UUID has no space, the idempotency key identifies the occurrence:
    two candidates, of one generator call or of two, have the same key
    exactly when they come from the same schedule id and the same date. *)
Theorem key_identifies_the_occurrence
    (dep_id1 dep_id2 : UUID) (start1 end1 start2 end2 : option datetime)
    (max1 max2 : option Z) (w1 w2 : World)
    (runs1 runs2 : list schemas.FlowRun.t) (w1' w2' : World)
    (r1 r2 : schemas.FlowRun.t) :
  Inj (=) (=) str_uuid → Inj (=) (=) str_datetime →
  (∀ u, has_char " "%char (str_uuid u) = false) →
  _generate_scheduled_flow_runs dep_id1 start1 end1 max1 w1 = Ok runs1 w1' →
  _generate_scheduled_flow_runs dep_id2 start2 end2 max2 w2 = Ok runs2 w2' →
  r1 ∈ runs1 → r2 ∈ runs2 →
  schemas.FlowRun.idempotency_key r1 = schemas.FlowRun.idempotency_key r2
  ↔ provenance r1 = provenance r2.
Proof.
  intros Hu Hd Hns Hgen1 Hgen2 Hr1 Hr2.
  rewrite (generate_closed _ _ _ _ _ _ _ _ _
             (resolve_window_closed start1 end1 max1 w1)) in Hgen1.
  rewrite (generate_closed _ _ _ _ _ _ _ _ _
             (resolve_window_closed start2 end2 max2 w2)) in Hgen2.
  destruct (deployment w1 !! dep_id1) as [dep1|]; [|discriminate].
  destruct (deployment w2 !! dep_id2) as [dep2|]; [|discriminate].
  injection Hgen1 as <- <-. injection Hgen2 as <- <-.
  apply candidates_elem_of in Hr1 as ([s1 d1] & j1 & _ & ->).
  apply candidates_elem_of in Hr2 as ([s2 d2] & j2 & _ & ->).
  rewrite !candidate_provenance. simpl. split.
  - intros Heq. apply scheduled_key_inj in Heq as [-> ->]; done.
  - intros [= -> ->]. done.
Qed.

(** X15. In [schedule_runs] the generator runs before the materializer: on
    a session whose dialect is not recognized, a stored deployment gives the
    [ValueError] of the materializer and a missing one the [AttributeError]
    of the generator; in both cases the two tables are as before. *)
Theorem schedule_runs_fails_on_unrecognized_dialect
    (dep_id : UUID) (start_time end_time : option datetime)
    (max_runs : option Z) (w : World) :
  bind_dialect_name w ≠ "sqlite" →
  bind_dialect_name w ≠ "postgresql" →
  ∃ w',
    schedule_runs dep_id start_time end_time max_runs w
    = Raise (match deployment w !! dep_id with
             | Some _ =>
                 ValueError ("Unrecognized dialect: " +:+ bind_dialect_name w)
             | None =>
                 AttributeError "'NoneType' object has no attribute 'schedules'"
             end) w'
    ∧ flow_run w' = flow_run w
    ∧ flow_run_state w' = flow_run_state w.
Proof.
  intros Hs Hp. unfold schedule_runs, bind.
  rewrite (generate_closed _ _ _ _ _ _ _ _ _
             (resolve_window_closed start_time end_time max_runs w)).
  destruct (deployment w !! dep_id) as [dep|].
  - rewrite insert_scheduled_unrecognized by done. eexists. done.
  - eexists. done.
Qed.

(** X16. A returning call of [schedule_runs] keeps [uuid4()] fresh for the
    next call: if the values it returns are pairwise distinct and none of
    those still to come is the id of a stored run, the same holds in the
    session the call leaves. *)
Theorem schedule_runs_keeps_uuid4_unique
    (dep_id : UUID) (start_time end_time : option datetime)
    (max_runs : option Z) (w : World)
    (res : list schemas.FlowRun.t) (w1 : World) :
  uuid4_unique w →
  schedule_runs dep_id start_time end_time max_runs w = Ok res w1 →
  uuid4_unique w1.
Proof.
  intros [Hinj Hfresh] Hrun.
  apply schedule_runs_Ok in Hrun
    as (n & st & et & w0 & dep & Hw & Hdep & _ & Hmat).
  rewrite resolve_window_closed in Hw. injection Hw as <- <- <- <-.
  pose proof (fun x => insert_scheduled_rows _ _ _ _ x Hmat) as Hrows.
  apply insert_scheduled_frame_ex in Hmat as (t & s & ->).
  simpl in *. split; [done|]. simpl.
  intros k Hk. apply eq_None_not_Some. intros Hsome.
  destruct (Hrows _ Hsome) as [[row Hrow]|Hin].
  - rewrite Hfresh in Hrow by lia. discriminate.
  - apply list_elem_of_fmap in Hin as (r1 & Hid & Hr1).
    apply candidates_ids in Hr1 as (j1 & Hj1 & Hid1).
    rewrite Hid1 in Hid. apply Hinj in Hid. lia.
Qed.

End KeyFacts.

Lemma key_identifies_the_occurrence_witness :
  ∃ runs w' r1 r2,
    sample_candidates = Ok runs w'
    ∧ r1 ∈ runs ∧ r2 ∈ runs
    ∧ (schemas.FlowRun.idempotency_key r1 = schemas.FlowRun.idempotency_key r2
       ↔ provenance r1 = provenance r2).
Proof.
  pose (r0 := @candidate sample_library (fun k => N.of_nat (100 + k))
                sample_deployment 5%N 0
                (orm.Schedule.mk 1%N every_instant ∅, 10%Z)).
  pose (r1 := @candidate sample_library (fun k => N.of_nat (100 + k))
                sample_deployment 5%N 2
                (orm.Schedule.mk 1%N every_instant ∅, 11%Z)).
  assert (∃ rest w',
            sample_candidates = Ok (r0 :: r1 :: rest) w')
    as (rest & w' & Heq).
  { eexists _, _. vm_compute. reflexivity. }
  exists (r0 :: r1 :: rest), w', r0, r1.
  split; [exact Heq|]. split; [left|]. split; [right; left|].
  apply (@key_identifies_the_occurrence sample_library 5%N 5%N
           (Some 10%Z) (Some 20%Z) (Some 10%Z) (Some 20%Z)
           (Some 2%Z) (Some 2%Z) (sample_world "sqlite") (sample_world "sqlite")
           (r0 :: r1 :: rest) (r0 :: r1 :: rest) w' w' r0 r1).
  - simpl. apply _.
  - simpl. apply _.
  - simpl. apply pretty_N_no_space.
  - exact Heq.
  - exact Heq.
  - left.
  - right; left.
Defined.

Lemma schedule_runs_fails_on_unrecognized_dialect_witness :
  ∃ w',
    @schedule_runs sample_library 5%N None None None (sample_world "mysql")
    = Raise (ValueError "Unrecognized dialect: mysql") w'
    ∧ flow_run w' = flow_run (sample_world "mysql")
    ∧ flow_run_state w' = flow_run_state (sample_world "mysql").
Proof.
  apply (@schedule_runs_fails_on_unrecognized_dialect sample_library 5%N
           None None None (sample_world "mysql")); simpl; discriminate.
Defined.

Lemma schedule_runs_keeps_uuid4_unique_witness :
  uuid4_unique (sample_world "sqlite")
  ∧ uuid4_unique (world_of sample_call).
Proof.
  split; [apply sample_world_uuid4_unique|].
  apply (@schedule_runs_keeps_uuid4_unique sample_library 5%N
           (Some 10%Z) (Some 20%Z) (Some 2%Z) (sample_world "sqlite")
           sample_runs (world_of sample_call)).
  - apply sample_world_uuid4_unique.
  - exact sample_call_eq.
Defined.

(** ** A first call of [schedule_runs] *)

Section FirstCall.
Context `{Library}.





End FirstCall.


(** * Deployments: create, read, list, delete *)

Lemma name_taken_lookup t n :
  name_taken t n ↔ ∃ i v, t !! i = Some v ∧ v.1 = n.
Proof. unfold name_taken. by rewrite map_Exists_lookup. Qed.

Lemma read_deployment_Some i t d :
  read_deployment i t = Some d ↔
  DeploymentModel.id d = i
  ∧ t !! i = Some (DeploymentModel.name d, DeploymentModel.row d).
Proof.
  unfold read_deployment. destruct (t !! i) as [[n r]|]; simpl; split.
  - intros [= <-]. done.
  - intros [<- [= -> ->]]. by destruct d.
  - done.
  - intros [_ ?]. done.
Qed.

Lemma read_deployment_insert d t :
  read_deployment (DeploymentModel.id d)
    (<[DeploymentModel.id d :=
         (DeploymentModel.name d, DeploymentModel.row d)]> t)
  = Some d.
Proof. apply read_deployment_Some. by rewrite lookup_insert_eq. Qed.

(** X18. [create_deployment] either stores the deployment and returns it,
    which it does exactly when neither its id nor its name is taken, and then
    [read_deployment] finds it under its id and finds every other deployment
    as before; or it raises [IntegrityError] and the table is unchanged. *)
Theorem create_deployment_outcome
    (deployment : DeploymentModel.t) (t : deployment_table) :
  match create_deployment deployment t with
  | Returned model t' =>
      model = deployment
      ∧ t !! DeploymentModel.id deployment = None
      ∧ ¬ name_taken t (DeploymentModel.name deployment)
      ∧ read_deployment (DeploymentModel.id deployment) t' = Some deployment
      ∧ (∀ i, i ≠ DeploymentModel.id deployment →
              read_deployment i t' = read_deployment i t)
      ∧ size t' = S (size t)
  | Failed e t' =>
      e = IntegrityError
      ∧ t' = t
      ∧ (is_Some (t !! DeploymentModel.id deployment)
         ∨ name_taken t (DeploymentModel.name deployment))
  end.
Proof.
  unfold create_deployment. case_decide as Hc; [done|].
  assert (t !! DeploymentModel.id deployment = None) as Hnone.
  { apply eq_None_not_Some. tauto. }
  split_and!; [done | done | tauto | apply read_deployment_insert | |].
  - intros i Hi. unfold read_deployment. by rewrite lookup_insert_ne.
  - by apply map_size_insert_None.
Qed.

(** X19. Names stay unique: if no two stored deployments share a name, the
    same holds after [create_deployment], whether it returns or raises, and
    after [delete_deployment]. *)
Theorem deployment_names_stay_unique
    (deployment : DeploymentModel.t) (deployment_id : UUID)
    (t : deployment_table) :
  names_unique t →
  names_unique (match create_deployment deployment t with
                | Returned _ t' => t'
                | Failed _ t' => t'
                end)
  ∧ names_unique (delete_deployment deployment_id t).2.
Proof.
  intros Hu. split.
  - unfold create_deployment. case_decide as Hc; [done|].
    intros i j vi vj Hi Hj Heq.
    apply lookup_insert_Some in Hi as [[<- <-]|[Hni Hi]];
      apply lookup_insert_Some in Hj as [[<- <-]|[Hnj Hj]].
    + done.
    + exfalso. apply Hc. right. apply name_taken_lookup.
      exists j, vj. by split.
    + exfalso. apply Hc. right. apply name_taken_lookup.
      exists i, vi. by split.
    + by eapply Hu.
  - simpl. intros i j vi vj Hi Hj Heq.
    apply lookup_delete_Some in Hi as [_ Hi].
    apply lookup_delete_Some in Hj as [_ Hj]. by eapply Hu.
Qed.

Lemma sample_table_names_unique : names_unique sample_table.
Proof.
  intros i j vi vj Hi Hj Heq. unfold sample_table in *.
  apply lookup_insert_Some in Hi as [[<- <-]|[_ Hi]];
    apply lookup_insert_Some in Hj as [[<- <-]|[_ Hj]];
    try apply lookup_singleton_Some in Hi as [<- <-];
    try apply lookup_singleton_Some in Hj as [<- <-];
    done.
Qed.

Lemma deployment_names_stay_unique_witness :
  names_unique sample_table
  ∧ names_unique (match create_deployment new_deployment sample_table with
                  | Returned _ t' => t'
                  | Failed _ t' => t'
                  end)
  ∧ names_unique (delete_deployment 5%N sample_table).2.
Proof.
  split; [apply sample_table_names_unique|].
  apply (deployment_names_stay_unique new_deployment 5%N sample_table).
  apply sample_table_names_unique.
Defined.

(** X20. [delete_deployment] returns whether the deployment was stored;
    afterwards [read_deployment] does not find it and finds every other
    deployment as before, and deleting it again returns [false] and changes
    nothing. *)
Theorem delete_deployment_outcome (deployment_id : UUID) (t : deployment_table) :
  let '(deleted, t') := delete_deployment deployment_id t in
  (deleted = true ↔ is_Some (read_deployment deployment_id t))
  ∧ read_deployment deployment_id t' = None
  ∧ (∀ i, i ≠ deployment_id → read_deployment i t' = read_deployment i t)
  ∧ delete_deployment deployment_id t' = (false, t').
Proof.
  simpl. split_and!.
  - rewrite bool_decide_eq_true. unfold read_deployment.
    by rewrite fmap_is_Some.
  - unfold read_deployment. by rewrite lookup_delete_eq.
  - intros i Hi. unfold read_deployment. by rewrite lookup_delete_ne.
  - unfold delete_deployment. rewrite lookup_delete_eq.
    rewrite (delete_id (delete deployment_id t)) by apply lookup_delete_eq.
    rewrite bool_decide_eq_false_2; [done|]. by intros [? ?].
Qed.

(** ** The listing *)

Lemma id_le_total : Total id_le.
Proof. intros a b. unfold id_le. lia. Qed.

Lemma id_le_trans : Transitive id_le.
Proof. intros a b c. unfold id_le. lia. Qed.

Lemma unique_from_NoDup seen l :
  (∀ d, d ∈ l → DeploymentModel.id d ∉ seen) →
  NoDup (DeploymentModel.id <$> l) →
  unique_from seen l = l.
Proof.
  revert seen. induction l as [|d l IH]; intros seen Hseen Hnd; [done|].
  rewrite fmap_cons in Hnd. apply NoDup_cons in Hnd as [Hd Hnd].
  simpl. rewrite decide_False by (apply Hseen; left).
  f_equal. apply IH; [|done].
  intros d' Hd' [Heq|Hin]%elem_of_cons.
  - apply Hd. rewrite <- Heq. by apply list_elem_of_fmap_2.
  - eapply Hseen; [by right | done].
Qed.

(** The rows of the table in the order of the query. *)
Lemma listing_Permutation t :
  merge_sort id_le (model_of <$> map_to_list t) ≡ₚ model_of <$> map_to_list t.
Proof. apply merge_sort_Permutation. Qed.

Lemma listing_NoDup t :
  NoDup (DeploymentModel.id
           <$> merge_sort id_le (model_of <$> map_to_list t)).
Proof.
  rewrite listing_Permutation, <- list_fmap_compose.
  apply NoDup_fst_map_to_list.
Qed.

Lemma elem_of_listing t d :
  d ∈ merge_sort id_le (model_of <$> map_to_list t) ↔
  read_deployment (DeploymentModel.id d) t = Some d.
Proof.
  rewrite listing_Permutation, list_elem_of_fmap, read_deployment_Some.
  split.
  - intros ([i [n r]] & -> & Hin). apply elem_of_map_to_list in Hin. done.
  - intros [_ Hin]. exists (DeploymentModel.id d,
                            (DeploymentModel.name d, DeploymentModel.row d)).
    split; [by destruct d | by apply elem_of_map_to_list].
Qed.

Lemma read_deployments_closed offset limit t :
  read_deployments offset limit t
  = (match limit with Some l => take l | None => fun q => q end)
      ((match offset with Some o => drop o | None => fun q => q end)
         (merge_sort id_le (model_of <$> map_to_list t))).
Proof.
  unfold read_deployments. cbv zeta.
  destruct limit as [l|], offset as [o|];
    (apply unique_from_NoDup; [intros d _ Hd; by apply elem_of_nil in Hd|]);
    (apply (sublist_NoDup _ _ (listing_NoDup t)));
    apply fmap_sublist.
  - etrans; [apply sublist_take | apply sublist_drop].
  - apply sublist_take.
  - apply sublist_drop.
  - done.
Qed.

Lemma StronglySorted_id_lt l :
  StronglySorted id_le l → NoDup (DeploymentModel.id <$> l) →
  StronglySorted (fun a b => (DeploymentModel.id a < DeploymentModel.id b)%N) l.
Proof.
  induction 1 as [|d l Hl IH Hall]; intros Hnd; constructor.
  - apply IH. rewrite fmap_cons in Hnd. by apply NoDup_cons in Hnd as [_ ?].
  - rewrite fmap_cons in Hnd. apply NoDup_cons in Hnd as [Hd _].
    rewrite Forall_forall in Hall |- *. intros d' Hd'.
    specialize (Hall d' Hd'). unfold id_le in Hall.
    assert (DeploymentModel.id d ≠ DeploymentModel.id d').
    { intros Heq. apply Hd. rewrite Heq. by apply list_elem_of_fmap_2. }
    lia.
Qed.

(** X21. Without offset and limit, [read_deployments] lists exactly the
    stored deployments, each once, in strictly increasing order of id. *)
Theorem read_deployments_lists_the_table (t : deployment_table) :
  StronglySorted
    (fun a b => (DeploymentModel.id a < DeploymentModel.id b)%N)
    (read_deployments None None t)
  ∧ (∀ d, d ∈ read_deployments None None t ↔
          read_deployment (DeploymentModel.id d) t = Some d)
  ∧ length (read_deployments None None t) = size t.
Proof.
  rewrite read_deployments_closed. split_and!.
  - apply StronglySorted_id_lt; [|apply listing_NoDup].
    apply (@StronglySorted_merge_sort _ id_le _ id_le_trans id_le_total).
  - intros d. apply elem_of_listing.
  - rewrite listing_Permutation, length_fmap. apply length_map_to_list.
Qed.

(** X22. Pages of [read_deployments]: a page is the stretch of the full
    listing that starts after [offset] deployments and has at most [limit]
    of them, and two consecutive pages make up the page of their joint
    size. *)
Theorem read_deployments_pages (o l l' : nat) (t : deployment_table) :
  read_deployments (Some o) (Some l) t
  = take l (drop o (read_deployments None None t))
  ∧ (length (read_deployments (Some o) (Some l) t) ≤ l)%nat
  ∧ read_deployments (Some o) (Some l) t
    ++ read_deployments (Some (o + l)%nat) (Some l') t
    = read_deployments (Some o) (Some (l + l')%nat) t.
Proof.
  rewrite !read_deployments_closed. split_and!.
  - done.
  - rewrite length_take. lia.
  - rewrite <- drop_drop. apply take_take_drop.
Qed.

(** ** Deployments and the generator *)

Section DeploymentsAndGenerator.
Context `{Library}.

Lemma session_over_lookup t w i :
  deployment (session_over t w) !! i
  = DeploymentModel.row <$> read_deployment i t.
Proof.
  unfold read_deployment. simpl. rewrite lookup_fmap.
  by destruct (t !! i) as [[n r]|].
Qed.

(** X23. The generator finds the deployments [read_deployment] finds. On a
    session that reads its deployments from a table, it raises the
    [AttributeError] exactly for the ids [read_deployment] has no model for;
    for the others it returns, in generation order, the candidates of the
    occurrences of that model's schedules. *)
Theorem generator_finds_what_read_deployment_finds
    (dep_id : UUID) (start_time end_time : option datetime)
    (max_runs : option Z) (t : deployment_table) (w : World) :
  ∃ n st et w0,
    resolve_window start_time end_time max_runs (session_over t w)
    = Ok (n, st, et) w0
    ∧ match read_deployment dep_id t with
      | Some d =>
          ∃ runs w',
            _generate_scheduled_flow_runs dep_id start_time end_time max_runs
                                          (session_over t w)
            = Ok runs w'
            ∧ provenance <$> runs
              = (fun sd => (Some (orm.Schedule.id sd.1), Some sd.2))
                  <$> occurrences
                        (orm.Deployment.schedules (DeploymentModel.row d))
                        n st et
      | None =>
          _generate_scheduled_flow_runs dep_id start_time end_time max_runs
                                        (session_over t w)
          = Raise (AttributeError
                     "'NoneType' object has no attribute 'schedules'") w0
      end.
Proof.
  pose proof (resolve_window_closed start_time end_time max_runs
                (session_over t w)) as Hw.
  eexists _, _, _, _. split; [exact Hw|].
  rewrite (generate_closed _ _ _ _ _ _ _ _ _ Hw), session_over_lookup.
  destruct (read_deployment dep_id t) as [d|]; simpl; [|done].
  eexists _, _. split; [done|]. apply candidates_provenance.
Qed.

(** X24. A deployment that was deleted cannot be scheduled: after
    [delete_deployment], [schedule_runs] for that id raises the
    [AttributeError] and leaves the two tables as they were. *)
Theorem deleted_deployment_is_not_scheduled
    (dep_id : UUID) (start_time end_time : option datetime)
    (max_runs : option Z) (t : deployment_table) (w : World) :
  ∃ w0,
    schedule_runs dep_id start_time end_time max_runs
                  (session_over (delete_deployment dep_id t).2 w)
    = Raise (AttributeError "'NoneType' object has no attribute 'schedules'")
            w0
    ∧ flow_run w0 = flow_run w
    ∧ flow_run_state w0 = flow_run_state w.
Proof.
  unfold schedule_runs, bind.
  rewrite (generate_closed _ _ _ _ _ _ _ _ _
             (resolve_window_closed start_time end_time max_runs _)).
  rewrite session_over_lookup. unfold read_deployment. simpl.
  rewrite lookup_delete_eq. simpl. eexists. done.
Qed.

End DeploymentsAndGenerator.

(** * Migration 3a7c41d3b464 *)

Lemma filter_other_columns (name : string) (columns : list migration.Column) :
  name ∉ migration.column_name <$> columns →
  filter (fun c => migration.column_name c ≠ name) columns = columns.
Proof.
  intros Hn. apply filter_all. intros c Hc Heq. apply Hn.
  rewrite <- Heq. by apply list_elem_of_fmap_2.
Qed.

Lemma add_column_inr table_name column s s' :
  migration.add_column table_name column s = inr s' →
  ∃ columns,
    s !! table_name = Some columns
    ∧ (migration.column_name column ∉ migration.column_name <$> columns)
    ∧ s' = <[table_name := columns ++ [column]]> s.
Proof.
  unfold migration.add_column. intros Hadd.
  destruct (s !! table_name) as [columns|]; [|discriminate].
  case_decide as Hd; [discriminate|]. injection Hadd as <-.
  by exists columns.
Qed.

Lemma and_then_inr r k s' :
  migration.and_then r k = inr s' → ∃ s1, r = inr s1 ∧ k s1 = inr s'.
Proof. destruct r as [e|s1]; [discriminate|]. intros Hk. by exists s1. Qed.

(** What a successful upgrade found and did. *)
Lemma upgrade_inr s s' :
  migration.upgrade s = inr s' →
  ∃ columns,
    s !! "block_type" = Some columns
    ∧ ("description" ∉ migration.column_name <$> columns)
    ∧ ("code_example" ∉ migration.column_name <$> columns)
    ∧ s' = <["block_type" :=
               columns ++ [migration.mkColumn "description"
                                              migration.sa_String true;
                           migration.mkColumn "code_example"
                                              migration.sa_String true]]> s.
Proof.
  unfold migration.upgrade. intros (s1 & H1 & H2)%and_then_inr.
  apply add_column_inr in H1 as (columns & Hbt & Hd & ->).
  apply add_column_inr in H2 as (columns2 & Hbt2 & Hc & ->).
  rewrite lookup_insert_eq in Hbt2. injection Hbt2 as <-.
  exists columns. split; [done|]. split; [done|]. split.
  - intros Hin. apply Hc. rewrite fmap_app. apply elem_of_app. by left.
  - rewrite insert_insert_eq, <- app_assoc. done.
Qed.

Lemma drop_column_present table_name name s columns :
  s !! table_name = Some columns →
  name ∈ migration.column_name <$> columns →
  migration.drop_column table_name name s
  = inr (<[table_name :=
             filter (fun c => migration.column_name c ≠ name) columns]> s).
Proof.
  intros Hs Hin. unfold migration.drop_column. rewrite Hs.
  by rewrite decide_True.
Qed.

(** X25. Downgrade undoes upgrade: on the database an upgrade that went
    through leaves, the downgrade goes through and gives back the database
    as it was before the upgrade. *)
Theorem downgrade_undoes_upgrade (s s' : migration.db_schema) :
  migration.upgrade s = inr s' → migration.downgrade s' = inr s.
Proof.
  intros (columns & Hbt & Hd & Hc & ->)%upgrade_inr.
  unfold migration.downgrade.
  erewrite drop_column_present; [|apply lookup_insert_eq|].
  2:{ rewrite fmap_app. apply elem_of_app. right. simpl. right. left. }
  unfold migration.and_then.
  rewrite filter_app, (filter_other_columns _ _ Hc).
  rewrite filter_cons_True by done.
  rewrite filter_cons_False by (simpl; tauto).
  rewrite filter_nil.
  erewrite drop_column_present; [|apply lookup_insert_eq|].
  2:{ rewrite fmap_app. apply elem_of_app. right. simpl. left. }
  rewrite filter_app, (filter_other_columns _ _ Hd).
  rewrite filter_cons_False by (simpl; tauto). rewrite filter_nil, app_nil_r.
  f_equal. rewrite !insert_insert_eq. by apply insert_id.
Qed.

Lemma downgrade_undoes_upgrade_witness :
  ∃ s', migration.upgrade migration.sample_schema = inr s'
        ∧ migration.downgrade s' = inr migration.sample_schema.
Proof.
  assert (∃ s', migration.upgrade migration.sample_schema = inr s')
    as [s' Hup].
  { eexists. vm_compute. reflexivity. }
  exists s'. split; [exact Hup|].
  exact (downgrade_undoes_upgrade migration.sample_schema s' Hup).
Defined.

Lemma add_column_inl table_name column s e :
  migration.add_column table_name column s = inl e →
  (s !! table_name = None ∧ e = migration.UndefinedTable table_name)
  ∨ ∃ columns,
      s !! table_name = Some columns
      ∧ migration.column_name column ∈ migration.column_name <$> columns
      ∧ e = migration.DuplicateColumn table_name
              (migration.column_name column).
Proof.
  unfold migration.add_column. intros Hadd.
  destruct (s !! table_name) as [columns|].
  - case_decide as Hd; [|discriminate]. injection Hadd as <-.
    right. by exists columns.
  - injection Hadd as <-. by left.
Qed.

(** X26. The upgrade touches table [block_type] only: when it goes through,
    the table had neither of the two columns, it keeps its columns in order
    and gains [description] and [code_example], both nullable strings, at
    the end, and every other table is as before. When it does not, the
    table is missing or has one of the two columns already. *)
Theorem upgrade_outcome (s : migration.db_schema) :
  match migration.upgrade s with
  | inr s' =>
      ∃ columns,
        s !! "block_type" = Some columns
        ∧ ("description" ∉ migration.column_name <$> columns)
        ∧ ("code_example" ∉ migration.column_name <$> columns)
        ∧ s' !! "block_type"
          = Some (columns
                  ++ [migration.mkColumn "description" migration.sa_String true;
                      migration.mkColumn "code_example" migration.sa_String
                                         true])
        ∧ ∀ table_name, table_name ≠ "block_type" →
                        s' !! table_name = s !! table_name
  | inl e =>
      (s !! "block_type" = None ∧ e = migration.UndefinedTable "block_type")
      ∨ ∃ columns column,
          s !! "block_type" = Some columns
          ∧ column ∈ migration.column_name <$> columns
          ∧ (column = "description" ∨ column = "code_example")
          ∧ e = migration.DuplicateColumn "block_type" column
  end.
Proof.
  destruct (migration.upgrade s) as [e|s'] eqn:Hup.
  - unfold migration.upgrade in Hup.
    destruct (migration.add_column "block_type"
                (migration.mkColumn "description" migration.sa_String true) s)
      as [e1|s1] eqn:H1; simpl in Hup.
    + injection Hup as <-.
      apply add_column_inl in H1 as [[Hbt ->]|(columns & Hbt & Hin & ->)];
        [by left|].
      right. exists columns, "description". split_and!; [done | done | |done].
      by left.
    + apply add_column_inr in H1 as (columns & Hbt & Hd & ->).
      apply add_column_inl in Hup as [[Hbt2 ->]|(columns2 & Hbt2 & Hin & ->)].
      { by rewrite lookup_insert_eq in Hbt2. }
      rewrite lookup_insert_eq in Hbt2. injection Hbt2 as <-.
      right. exists columns, "code_example".
      split_and!; [done | | by right | done].
      rewrite fmap_app in Hin. apply elem_of_app in Hin as [Hin|Hin]; [done|].
      simpl in Hin. apply list_elem_of_singleton in Hin. discriminate.
  - apply upgrade_inr in Hup as (columns & Hbt & Hd & Hc & ->).
    exists columns. split_and!; [done | done | done | apply lookup_insert_eq |].
    intros table_name Hne. by rewrite lookup_insert_ne.
Qed.

(** X27. The upgrade does not apply twice: on the database an upgrade that
    went through leaves, a second upgrade is refused because column
    [description] exists. *)
Theorem upgrade_is_refused_twice (s s' : migration.db_schema) :
  migration.upgrade s = inr s' →
  migration.upgrade s'
  = inl (migration.DuplicateColumn "block_type" "description").
Proof.
  intros (columns & Hbt & Hd & Hc & ->)%upgrade_inr.
  unfold migration.upgrade.
  assert (migration.add_column "block_type"
            (migration.mkColumn "description" migration.sa_String true)
            (<["block_type" :=
                 columns ++ [migration.mkColumn "description"
                                                migration.sa_String true;
                             migration.mkColumn "code_example"
                                                migration.sa_String true]]> s)
          = inl (migration.DuplicateColumn "block_type" "description")) as ->.
  { unfold migration.add_column. rewrite lookup_insert_eq.
    rewrite decide_True; [done|].
    rewrite fmap_app. apply elem_of_app. right. simpl. left. }
  done.
Qed.

Lemma upgrade_is_refused_twice_witness :
  ∃ s', migration.upgrade migration.sample_schema = inr s'
        ∧ migration.upgrade s'
          = inl (migration.DuplicateColumn "block_type" "description").
Proof.
  assert (∃ s', migration.upgrade migration.sample_schema = inr s')
    as [s' Hup].
  { eexists. vm_compute. reflexivity. }
  exists s'. split; [exact Hup|].
  exact (upgrade_is_refused_twice migration.sample_schema s' Hup).
Defined.
